(** * The meeting orchestration engine of ai-meeting-app

    A shallow embedding of the credential rotation of
    [services/geminiService.ts] (class [ApiKeyManager],
    [generateContentWithRetry], [generateAgenda], [generateTurn]) and of the
    meeting controller of [App.tsx] ([runMeetingStep], the scheduling effect,
    [handleStartMeeting], [handleStopMeeting], [handleResetMeeting],
    [handleSendMessage]), together with the Start control of
    [components/SettingsPanel.tsx].  Further parts follow the same code:
    whole calls of the gateway against the replies of the backend, the key
    list of the settings ([handleAddKey], [handleAddApiKey],
    [handleDeleteApiKey]), the personas ([handleSavePersona],
    [handleDeletePersona], [PersonaForm]) and the intervention form of
    [components/MeetingRoom.tsx].

    JavaScript strings are modelled as [string], a sequence of code units
    below 256.  Array indices and the speaker index (which starts at -1) are
    integers of [Z].  The asynchronous [runMeetingStep] is cut at its
    [await]s: the suspended call is a field of the controller state, and a
    reply of the generation backend is an event that resumes it. *)

From Stdlib Require Import List String Ascii Bool Arith ZArith Lia.
Import ListNotations.
Local Open Scope string_scope.
Local Open Scope nat_scope.

(** ** Strings *)

Module Js.

(** Code units that [String.prototype.trim] strips (those below 256). *)
Definition isWhitespace (c : ascii) : bool :=
  let n := nat_of_ascii c in
  ((9 <=? n) && (n <=? 13)) || (n =? 32) || (n =? 160).

Fixpoint trimStart (s : string) : string :=
  match s with
  | EmptyString => EmptyString
  | String c s' => if isWhitespace c then trimStart s' else s
  end.

Fixpoint trimEnd (s : string) : string :=
  match s with
  | EmptyString => EmptyString
  | String c s' =>
      match trimEnd s' with
      | EmptyString => if isWhitespace c then EmptyString else String c EmptyString
      | r => String c r
      end
  end.

Definition trim (s : string) : string := trimEnd (trimStart s).

(** [s.split(sep)] for a one-character separator. *)
Fixpoint split (sep : ascii) (s : string) : list string :=
  match s with
  | EmptyString => [EmptyString]
  | String c s' =>
      if Ascii.eqb c sep then EmptyString :: split sep s'
      else match split sep s' with
           | h :: t => String c h :: t
           | [] => [String c EmptyString]
           end
  end.

Definition join (sep : string) (l : list string) : string := String.concat sep l.

Definition includes (needle s : string) : bool :=
  match String.index 0 needle s with Some _ => true | None => false end.

Definition lowerChar (c : ascii) : ascii :=
  let n := nat_of_ascii c in
  if ((65 <=? n) && (n <=? 90))
     || ((192 <=? n) && (n <=? 222) && negb (n =? 215))
  then ascii_of_nat (n + 32) else c.

Fixpoint toLowerCase (s : string) : string :=
  match s with
  | EmptyString => EmptyString
  | String c s' => String (lowerChar c) (toLowerCase s')
  end.

(** [s.slice(-4)]: the last four code units, or all of [s] when shorter. *)
Definition sliceLast4 (s : string) : string :=
  String.substring (String.length s - 4) 4 s.

(** [l[i]]: [None] stands for [undefined]. *)
Definition nth {A} (l : list A) (i : Z) : option A :=
  if (i <? 0)%Z then None else nth_error l (Z.to_nat i).

(** Truthiness of a [string | null]. *)
Definition truthy (o : option string) : bool :=
  match o with
  | Some s => negb (String.eqb s "")
  | None => false
  end.

Definition nl : string := String (ascii_of_nat 10) EmptyString.
Definition dq : string := String (ascii_of_nat 34) EmptyString.

End Js.

(** ** Data model ([types.ts]) *)

Inductive ApiKeyStatus := unchecked | checking | active | rate_limited | invalid.

Definition ApiKeyStatus_eqb (a b : ApiKeyStatus) : bool :=
  match a, b with
  | unchecked, unchecked | checking, checking | active, active
  | rate_limited, rate_limited | invalid, invalid => true
  | _, _ => false
  end.

Module ApiKey.
Record t := mk { id : string; value : string; status : ApiKeyStatus }.
(** [{ ...k, status: st }] *)
Definition withStatus (st : ApiKeyStatus) (k : t) : t :=
  mk (id k) (value k) st.
End ApiKey.

Module Persona.
Record t := mk { id : string; name : string; role : string }.
End Persona.

Record ChatMessage := mkChatMessage {
  personaId : string;
  personaName : string;
  personaRole : string;
  text : string;
  isThinking : bool;
  isOrchestrator : bool;
  isUser : bool
}.

(** ** The credential pool: class [ApiKeyManager] *)

Record ApiKeyManager := mkManager {
  keys : list ApiKey.t;
  currentIndex : nat
}.

Definition usableAtCreation (k : ApiKey.t) : bool :=
  ApiKeyStatus_eqb (ApiKey.status k) active
  && negb (String.eqb (Js.trim (ApiKey.value k)) "").

(** The constructor: the filter is applied once, here. *)
Definition newApiKeyManager (ks : list ApiKey.t) : ApiKeyManager :=
  mkManager (filter usableAtCreation ks) 0.

Definition getAvailableKeyCount (m : ApiKeyManager) : nat := List.length (keys m).

Definition getNextKey (m : ApiKeyManager) : option ApiKey.t * ApiKeyManager :=
  if getAvailableKeyCount m =? 0 then (None, m)
  else (nth_error (keys m) (currentIndex m),
        mkManager (keys m) ((currentIndex m + 1) mod List.length (keys m))).

(** The keys returned by [n] consecutive calls of [getNextKey]. *)
Fixpoint draws (n : nat) (m : ApiKeyManager) : list (option ApiKey.t) :=
  match n with
  | O => []
  | S n' => let (k, m') := getNextKey m in k :: draws n' m'
  end.

Fixpoint afterDraws (n : nat) (m : ApiKeyManager) : ApiKeyManager :=
  match n with
  | O => m
  | S n' => afterDraws n' (snd (getNextKey m))
  end.

(** ** The generation gateway: [generateContentWithRetry] *)

(** What the backend call [ai.models.generateContent] does: it resolves with
    a response text or throws an error, of which the gateway reads the
    message ([e.message], or [JSON.stringify(e)] when that is no string). *)
Inductive BackendResult :=
| Success (responseText : string)
| Failure (errorMessage : string).

(** The exceptions that reach the [catch] of [runMeetingStep]. *)
Inductive Thrown :=
| PlainError (message : string)
| AbortError
| RateLimitError (message : string) (failingKey : string).

Definition isRateLimitError (errorMessage : string) : bool :=
  let m := Js.toLowerCase errorMessage in
  Js.includes "429" m || Js.includes "rate limit" m
  || Js.includes "resource_exhausted" m.

(** The loop of [generateContentWithRetry] runs until its next [await]
    ([Suspended], with the key in use and the iterations left after this one)
    or until it throws. *)
Inductive LoopOutcome :=
| Suspended (apiKey : string) (attemptsLeft : nat)
| Rejected (e : Thrown).

Definition noKeysMessage : string :=
  "No active API keys available. Please check your keys' statuses.".
Definition allLimitedMessage : string :=
  "All API keys are currently rate-limited. Please wait a while or add a new key.".
Definition invalidKeyMessage (apiKey : string) : string :=
  "API call failed for key ..." ++ Js.sliceLast4 apiKey ++ ". It might be invalid.".

(** [keyLoop n] is the [for] loop with [n] iterations to go; [aborted] is
    [signal.aborted]. *)
Fixpoint keyLoop (n : nat) (aborted : bool) (m : ApiKeyManager)
  : LoopOutcome * ApiKeyManager :=
  match n with
  | O =>
      let (k, m') := getNextKey m in
      (Rejected (RateLimitError allLimitedMessage
                   match k with Some key => ApiKey.value key | None => "" end),
       m')
  | S n' =>
      let (k, m') := getNextKey m in
      match k with
      | None => keyLoop n' aborted m'
      | Some key =>
          if aborted then (Rejected AbortError, m')
          else (Suspended (ApiKey.value key) n', m')
      end
  end.

Definition generateContentWithRetry (aborted : bool) (m : ApiKeyManager)
  : LoopOutcome * ApiKeyManager :=
  let totalKeys := getAvailableKeyCount m in
  if totalKeys =? 0 then (Rejected (PlainError noKeysMessage), m)
  else keyLoop totalKeys aborted m.

(** The [catch] inside the loop, for the attempt made with [apiKey]. *)
Definition attemptFailed (errorMessage apiKey : string) (attemptsLeft : nat)
    (aborted : bool) (m : ApiKeyManager) : LoopOutcome * ApiKeyManager :=
  if isRateLimitError errorMessage then keyLoop attemptsLeft aborted m
  else (Rejected (RateLimitError (invalidKeyMessage apiKey) apiKey), m).

(** [generateAgenda]: the lines of the response longer than one character
    once trimmed. *)
Definition agendaOfResponse (responseText : string) : list string :=
  filter (fun item => 1 <? String.length (Js.trim item))
         (Js.split (ascii_of_nat 10) responseText).

(** [generateTurn]: the prompt. *)
Definition formatMessage (msg : ChatMessage) : string :=
  if isUser msg then "Facilitator (Human): " ++ text msg
  else personaName msg ++ " (" ++ personaRole msg ++ "): " ++ text msg.

Definition formatHistory (history : list ChatMessage) : string :=
  match history with
  | [] => "No discussion has happened yet."
  | _ => Js.join (Js.nl ++ Js.nl)
           (map formatMessage (filter (fun msg => negb (isOrchestrator msg)) history))
  end.

Definition interventionPrompt (userIntervention : option string) : string :=
  match userIntervention with
  | Some t =>
      if Js.truthy userIntervention then
        Js.nl ++ "**IMPORTANT: The human facilitator has just interjected with the following instruction or question. Make sure your response addresses it directly:** "
        ++ Js.dq ++ t ++ Js.dq ++ Js.nl
      else ""
  | None => ""
  end.

Definition turnPrompt (persona : Persona.t) (topic : string)
    (history : list ChatMessage) (currentAgendaItem : option string)
    (userIntervention : option string) : string :=
  let ind := Js.nl ++ "        " in
  ind ++ "**Meeting Topic:** " ++ topic
  ++ ind ++ "**Current Agenda Item:** "
  ++ match currentAgendaItem with Some a => a | None => "undefined" end
  ++ ind ++ "**Conversation History So Far:**"
  ++ ind ++ formatHistory history
  ++ ind ++ interventionPrompt userIntervention
  ++ ind ++ "**Your Task:**"
  ++ ind ++ "You are " ++ Persona.name persona
  ++ ". Based on the history, the current agenda item, and the facilitator's latest instruction (if any), provide your contribution to the discussion.".

(** ** The meeting controller: component [App] *)

Record MeetingState := mkMeetingState {
  agenda : list string;
  currentAgendaIndex : Z;
  currentSpeakerIndex : Z;
  userIntervention : option string
}.

Definition freshMeetingState : MeetingState := mkMeetingState [] 0 (-1) None.

(** The values a [runMeetingStep] callback closes over. *)
Record Closure := mkClosure {
  c_meetingTopic : string;
  c_personas : list Persona.t;
  c_chatHistory : list ChatMessage;
  c_apiKeys : list ApiKey.t
}.

(** The gateway entry points, with their arguments. *)
Inductive Call :=
| GenerateAgenda (topic : string)
| GenerateTurn (persona : Persona.t) (topic : string)
    (history : list ChatMessage) (currentAgendaItem : option string)
    (intervention : option string)
| GenerateSummary (topic : string) (history : list ChatMessage).

(** What [runMeetingStep] does once its pending call resolves. *)
Inductive Continuation :=
| AfterAgenda
| AfterTurn (thinkingMessage : ChatMessage)
| AfterSummary.

(** A [runMeetingStep] suspended at the [await] of a backend attempt. *)
Record InFlight := mkInFlight {
  closure : Closure;
  continuation : Continuation;
  attemptKey : string;
  attemptsLeft : nat
}.

(** The component state: the [useState] cells, the three refs, the suspended
    step, the pending cooldown timers (by key id), and a log of the gateway
    calls made so far (a ghost field: no code reads it). *)
Record App := mkApp {
  personas : list Persona.t;
  meetingTopic : string;
  apiKeys : list ApiKey.t;
  chatHistory : list ChatMessage;
  isMeetingRunning : bool;
  isWaitingForAI : bool;
  error : option string;
  abortControllerRef : option bool;
  orchestratorRef : option ApiKeyManager;
  meetingStateRef : MeetingState;
  suspended : option InFlight;
  cooldownTimers : list string;
  callLog : list Call
}.

Definition setApiKeys v s :=
  mkApp (personas s) (meetingTopic s) v (chatHistory s) (isMeetingRunning s)
    (isWaitingForAI s) (error s) (abortControllerRef s) (orchestratorRef s)
    (meetingStateRef s) (suspended s) (cooldownTimers s) (callLog s).
Definition setChatHistory v s :=
  mkApp (personas s) (meetingTopic s) (apiKeys s) v (isMeetingRunning s)
    (isWaitingForAI s) (error s) (abortControllerRef s) (orchestratorRef s)
    (meetingStateRef s) (suspended s) (cooldownTimers s) (callLog s).
Definition setIsMeetingRunning v s :=
  mkApp (personas s) (meetingTopic s) (apiKeys s) (chatHistory s) v
    (isWaitingForAI s) (error s) (abortControllerRef s) (orchestratorRef s)
    (meetingStateRef s) (suspended s) (cooldownTimers s) (callLog s).
Definition setIsWaitingForAI v s :=
  mkApp (personas s) (meetingTopic s) (apiKeys s) (chatHistory s)
    (isMeetingRunning s) v (error s) (abortControllerRef s) (orchestratorRef s)
    (meetingStateRef s) (suspended s) (cooldownTimers s) (callLog s).
Definition setError v s :=
  mkApp (personas s) (meetingTopic s) (apiKeys s) (chatHistory s)
    (isMeetingRunning s) (isWaitingForAI s) v (abortControllerRef s)
    (orchestratorRef s) (meetingStateRef s) (suspended s) (cooldownTimers s)
    (callLog s).
Definition setAbortControllerRef v s :=
  mkApp (personas s) (meetingTopic s) (apiKeys s) (chatHistory s)
    (isMeetingRunning s) (isWaitingForAI s) (error s) v (orchestratorRef s)
    (meetingStateRef s) (suspended s) (cooldownTimers s) (callLog s).
Definition setOrchestratorRef v s :=
  mkApp (personas s) (meetingTopic s) (apiKeys s) (chatHistory s)
    (isMeetingRunning s) (isWaitingForAI s) (error s) (abortControllerRef s) v
    (meetingStateRef s) (suspended s) (cooldownTimers s) (callLog s).
Definition setMeetingStateRef v s :=
  mkApp (personas s) (meetingTopic s) (apiKeys s) (chatHistory s)
    (isMeetingRunning s) (isWaitingForAI s) (error s) (abortControllerRef s)
    (orchestratorRef s) v (suspended s) (cooldownTimers s) (callLog s).
Definition setSuspended v s :=
  mkApp (personas s) (meetingTopic s) (apiKeys s) (chatHistory s)
    (isMeetingRunning s) (isWaitingForAI s) (error s) (abortControllerRef s)
    (orchestratorRef s) (meetingStateRef s) v (cooldownTimers s) (callLog s).
Definition setCooldownTimers v s :=
  mkApp (personas s) (meetingTopic s) (apiKeys s) (chatHistory s)
    (isMeetingRunning s) (isWaitingForAI s) (error s) (abortControllerRef s)
    (orchestratorRef s) (meetingStateRef s) (suspended s) v (callLog s).
Definition setCallLog v s :=
  mkApp (personas s) (meetingTopic s) (apiKeys s) (chatHistory s)
    (isMeetingRunning s) (isWaitingForAI s) (error s) (abortControllerRef s)
    (orchestratorRef s) (meetingStateRef s) (suspended s) (cooldownTimers s) v.

(** [setChatHistory(prev => [...prev, msg])] *)
Definition appendMessages (msgs : list ChatMessage) (s : App) : App :=
  setChatHistory (chatHistory s ++ msgs) s.

(** The component before any meeting. *)
Definition initialApp (ps : list Persona.t) (topic : string)
    (ks : list ApiKey.t) : App :=
  mkApp ps topic ks [] false false None None None freshMeetingState None [] [].

Definition createOrchestratorMessage (t : string) : ChatMessage :=
  mkChatMessage "orchestrator" "AI Orchestrator" "Meeting Moderator" t
    false true false.

Definition openingNotice : ChatMessage :=
  createOrchestratorMessage
    "The meeting will now begin. The AI Orchestrator is generating an agenda...".
Definition stoppedNotice : ChatMessage :=
  createOrchestratorMessage "The meeting was stopped by the user.".
Definition agendaNotice (agendaItems : list string) : ChatMessage :=
  createOrchestratorMessage
    ("**Meeting Agenda:**" ++ Js.nl ++ Js.join Js.nl agendaItems).
Definition topicNotice (item : string) : ChatMessage :=
  createOrchestratorMessage ("Let's now discuss: **" ++ Js.trim item ++ "**").
Definition completeNotice : ChatMessage :=
  createOrchestratorMessage
    "The discussion is complete. The AI Orchestrator will now summarize.".
Definition summaryMessage (summary : string) : ChatMessage :=
  createOrchestratorMessage
    ("**Meeting Summary & Action Items:**" ++ Js.nl ++ summary).
Definition closingNotice : ChatMessage :=
  createOrchestratorMessage "The meeting has concluded.".

Definition thinkingMessageOf (p : Persona.t) : ChatMessage :=
  mkChatMessage (Persona.id p) (Persona.name p) (Persona.role p) ""
    true false false.
(** [{ ...thinkingMessage, text: responseText, isThinking: false }] *)
Definition finalMessageOf (thinkingMessage : ChatMessage) (responseText : string)
  : ChatMessage :=
  mkChatMessage (personaId thinkingMessage) (personaName thinkingMessage)
    (personaRole thinkingMessage) responseText false
    (isOrchestrator thinkingMessage) (isUser thinkingMessage).
Definition userMessageOf (t : string) : ChatMessage :=
  mkChatMessage "user" "You" "Facilitator" t false false true.

Definition notThinking (m : ChatMessage) : bool := negb (isThinking m).

(** [k.id === id ? { ...k, status: st } : k] *)
Definition markStatus (id : string) (st : ApiKeyStatus) (k : ApiKey.t) : ApiKey.t :=
  if String.eqb (ApiKey.id k) id then ApiKey.withStatus st k else k.

(** The [catch] block of [runMeetingStep]. *)
Definition catchBlock (cl : Closure) (e : Thrown) (s : App) : App :=
  let s1 :=
    match e with
    | AbortError => setChatHistory (filter notThinking (chatHistory s)) s
    | RateLimitError message failingKey =>
        let s' := setError (Some ("An error occurred: " ++ message)) s in
        match find (fun k => String.eqb (ApiKey.value k) failingKey)
                   (c_apiKeys cl) with
        | Some fk =>
            setCooldownTimers (cooldownTimers s' ++ [ApiKey.id fk])
              (setApiKeys (map (markStatus (ApiKey.id fk) rate_limited) (apiKeys s')) s')
        | None => s'
        end
    | PlainError message =>
        setError (Some ("An unexpected error occurred: " ++ message)) s
    end in
  setSuspended None
    (setIsWaitingForAI false
       (setIsMeetingRunning false
          (setChatHistory (filter notThinking (chatHistory s1)) s1))).

Definition nullSignalMessage : string :=
  "Cannot read properties of null (reading 'signal')".
Definition undefinedPersonaMessage : string :=
  "Cannot read properties of undefined (reading 'id')".
Definition undefinedItemMessage : string :=
  "Cannot read properties of undefined (reading 'trim')".

(** After the loop of the gateway ran to its next [await] or threw. *)
Definition settle (cl : Closure) (k : Continuation)
    (o : LoopOutcome * ApiKeyManager) (s : App) : App :=
  let s' := setOrchestratorRef (Some (snd o)) s in
  match fst o with
  | Suspended apiKey n => setSuspended (Some (mkInFlight cl k apiKey n)) s'
  | Rejected e => catchBlock cl e s'
  end.

(** A call [orchestrator.generate...(..., abortControllerRef.current!.signal)]
    inside the [try] of [runMeetingStep]. *)
Definition invoke (cl : Closure) (k : Continuation) (call : Call) (s : App) : App :=
  match abortControllerRef s with
  | None => catchBlock cl (PlainError nullSignalMessage) s
  | Some aborted =>
      match orchestratorRef s with
      | None => s
      | Some m =>
          settle cl k (generateContentWithRetry aborted m)
            (setCallLog (callLog s ++ [call]) s)
      end
  end.

(** [runMeetingStep] from "let nextSpeakerIndex" on. *)
Definition discuss (cl : Closure) (s : App) : App :=
  let state := meetingStateRef s in
  let nextSpeakerIndex := (currentSpeakerIndex state + 1)%Z in
  let nextAgendaIndex := currentAgendaIndex state in
  let wrap := (nextSpeakerIndex >=? Z.of_nat (List.length (c_personas cl)))%Z in
  let nextSpeakerIndex := if wrap then 0%Z else nextSpeakerIndex in
  let nextAgendaIndex := if wrap then (nextAgendaIndex + 1)%Z else nextAgendaIndex in
  if (nextAgendaIndex >=? Z.of_nat (List.length (agenda state)))%Z then
    invoke cl AfterSummary
      (GenerateSummary (c_meetingTopic cl) (c_chatHistory cl))
      (setIsWaitingForAI true (appendMessages [completeNotice] s))
  else
    let announce :=
      if (nextAgendaIndex >? currentAgendaIndex state)%Z then
        match Js.nth (agenda state) nextAgendaIndex with
        | Some item => Some (appendMessages [topicNotice item] s)
        | None => None
        end
      else Some s in
    match announce with
    | None => catchBlock cl (PlainError undefinedItemMessage) s
    | Some s1 =>
        let s2 :=
          setMeetingStateRef
            (mkMeetingState (agenda state) nextAgendaIndex nextSpeakerIndex
               (userIntervention state)) s1 in
        match Js.nth (c_personas cl) nextSpeakerIndex with
        | None => catchBlock cl (PlainError undefinedPersonaMessage) s2
        | Some currentPersona =>
            let currentAgendaItem := Js.nth (agenda state) nextAgendaIndex in
            let thinkingMessage := thinkingMessageOf currentPersona in
            invoke cl (AfterTurn thinkingMessage)
              (GenerateTurn currentPersona (c_meetingTopic cl) (c_chatHistory cl)
                 currentAgendaItem (userIntervention state))
              (appendMessages [thinkingMessage] (setIsWaitingForAI true s2))
        end
    end.

(** The scheduling effect: a timer for the next step is pending exactly
    when this holds. *)
Definition tickScheduled (s : App) : bool :=
  isMeetingRunning s && negb (isWaitingForAI s)
  && negb (List.last (map isThinking (chatHistory s)) false).

Definition closureOf (s : App) : Closure :=
  mkClosure (meetingTopic s) (personas s) (chatHistory s) (apiKeys s).

(** [runMeetingStep], up to its first [await]. *)
Definition runMeetingStep (s : App) : App :=
  match orchestratorRef s with
  | None => s
  | Some _ =>
      if negb (isMeetingRunning s) then s
      else if match abortControllerRef s with Some a => a | None => false end then
        appendMessages [stoppedNotice]
          (setIsWaitingForAI false (setIsMeetingRunning false s))
      else
        let cl := closureOf s in
        match agenda (meetingStateRef s) with
        | [] => invoke cl AfterAgenda (GenerateAgenda (c_meetingTopic cl))
                  (setIsWaitingForAI true s)
        | _ => discuss cl s
        end
  end.

(** [runMeetingStep] after the pending call resolved with [responseText]. *)
Definition resolved (f : InFlight) (responseText : string) (s : App) : App :=
  match continuation f with
  | AfterAgenda =>
      let agendaItems := agendaOfResponse responseText in
      let state := meetingStateRef s in
      discuss (closure f)
        (setIsWaitingForAI false
           (setMeetingStateRef
              (mkMeetingState agendaItems 0 (-1) (userIntervention state))
              (appendMessages [agendaNotice agendaItems] s)))
  | AfterTurn thinkingMessage =>
      let state := meetingStateRef s in
      setIsWaitingForAI false
        (setChatHistory
           (removelast (chatHistory s) ++ [finalMessageOf thinkingMessage responseText])
           (setMeetingStateRef
              (mkMeetingState (agenda state) (currentAgendaIndex state)
                 (currentSpeakerIndex state) None) s))
  | AfterSummary =>
      setIsWaitingForAI false
        (setIsMeetingRunning false
           (appendMessages [summaryMessage responseText; closingNotice] s))
  end.

(** The backend settles the pending attempt. *)
Definition backendReply (r : BackendResult) (s : App) : App :=
  match suspended s with
  | None => s
  | Some f =>
      let s' := setSuspended None s in
      match r with
      | Success responseText => resolved f responseText s'
      | Failure errorMessage =>
          match orchestratorRef s with
          | None => s
          | Some m =>
              let aborted :=
                match abortControllerRef s with Some a => a | None => false end in
              settle (closure f) (continuation f)
                (attemptFailed errorMessage (attemptKey f) (attemptsLeft f) aborted m)
                s'
          end
      end
  end.

Definition hasActiveKey (ks : list ApiKey.t) : bool :=
  existsb (fun k => ApiKeyStatus_eqb (ApiKey.status k) active) ks.

Definition noActiveKeyMessage : string :=
  "Please add and verify at least one active API key to start.".

Definition handleStartMeeting (s : App) : App :=
  if isMeetingRunning s || negb (hasActiveKey (apiKeys s)) then
    if negb (hasActiveKey (apiKeys s)) then setError (Some noActiveKeyMessage) s
    else s
  else
    setIsMeetingRunning true
      (setChatHistory [openingNotice]
         (setMeetingStateRef freshMeetingState
            (setOrchestratorRef (Some (newApiKeyManager (apiKeys s)))
               (setAbortControllerRef (Some false)
                  (setChatHistory [] (setError None s)))))).

Definition handleStopMeeting (s : App) : App :=
  setIsWaitingForAI false
    (setIsMeetingRunning false
       (match abortControllerRef s with
        | Some _ => setAbortControllerRef (Some true) s
        | None => s
        end)).

Definition handleResetMeeting (s : App) : App :=
  setError None (setChatHistory [] (handleStopMeeting s)).

Definition handleSendMessage (t : string) (s : App) : App :=
  if negb (isMeetingRunning s) || isWaitingForAI s then s
  else
    let state := meetingStateRef s in
    appendMessages [userMessageOf t]
      (setMeetingStateRef
         (mkMeetingState (agenda state) (currentAgendaIndex state)
            (currentSpeakerIndex state) (Some t)) s).

(** The callback of the 60 second [setTimeout] of the [catch] block. *)
Fixpoint removeTimer (id : string) (l : list string) : list string :=
  match l with
  | [] => []
  | x :: l' => if String.eqb x id then l' else x :: removeTimer id l'
  end.

Definition cooldownExpires (id : string) (s : App) : App :=
  if existsb (String.eqb id) (cooldownTimers s) then
    setCooldownTimers (removeTimer id (cooldownTimers s))
      (setApiKeys (map (markStatus id active) (apiKeys s)) s)
  else s.

(** [SettingsPanel]: the Start button is rendered while no meeting runs and
    is disabled unless [canStartMeeting]. *)
Definition canStartMeeting (s : App) : bool :=
  (0 <? List.length (personas s))
  && (0 <? String.length (Js.trim (meetingTopic s)))
  && hasActiveKey (apiKeys s).

Definition clickStart (s : App) : App :=
  if isMeetingRunning s then s
  else if canStartMeeting s then handleStartMeeting s
  else s.

(** ** Events *)

Inductive Event :=
| StartMeeting
| StopMeeting
| ResetMeeting
| SendMessage (t : string)
| TimerFires
| BackendReplies (r : BackendResult)
| CooldownFires (id : string).

Definition step (e : Event) (s : App) : App :=
  match e with
  | StartMeeting => handleStartMeeting s
  | StopMeeting => handleStopMeeting s
  | ResetMeeting => handleResetMeeting s
  | SendMessage t => handleSendMessage t s
  | TimerFires => if tickScheduled s then runMeetingStep s else s
  | BackendReplies r => backendReply r s
  | CooldownFires id => cooldownExpires id s
  end.

Definition run (evs : list Event) (s : App) : App :=
  fold_left (fun s e => step e s) evs s.

(** The states of a controller on which a meeting is only started while no
    call of an earlier meeting is still pending. *)
Inductive reachable (ps : list Persona.t) (topic : string) (ks : list ApiKey.t)
  : App -> Prop :=
| reach_init : reachable ps topic ks (initialApp ps topic ks)
| reach_start s :
    reachable ps topic ks s -> suspended s = None ->
    reachable ps topic ks (handleStartMeeting s)
| reach_step e s :
    reachable ps topic ks s -> e <> StartMeeting ->
    reachable ps topic ks (step e s).

(** ** Definitions used by the statements *)


Definition onlyWhitespace (s : string) : bool :=
  forallb Js.isWhitespace (list_ascii_of_string s).

(** A key counts as usable now when its current status is [active] and its
    value is not blank. *)
Definition usableNow (ks : list ApiKey.t) (v : string) : bool :=
  existsb (fun k => String.eqb (ApiKey.value k) v && usableAtCreation k) ks.

(** The cursor of a pool points into its keys. *)
Definition wf (m : ApiKeyManager) : Prop := currentIndex m < List.length (keys m).

(** [l[j].value] *)
Definition valueAt (l : list ApiKey.t) (j : nat) : string :=
  match nth_error l j with Some k => ApiKey.value k | None => EmptyString end.

(** The controller still holds the pool [m], some draws later. *)
Definition samePool (m : ApiKeyManager) (s : App) : Prop :=
  exists j, orchestratorRef s = Some (afterDraws j m).

(** A small configuration for the examples: two personas and keys added
    the way [handleAddApiKey] adds them ([id] equal to [value]). *)
Module Ex.
Definition alice : Persona.t := Persona.mk "1" "Alice" "Marketing Director".
Definition bob : Persona.t := Persona.mk "2" "Bob" "Content Creator".
Definition keyA : ApiKey.t := ApiKey.mk "key-a" "key-a" active.
Definition keyB : ApiKey.t := ApiKey.mk "key-b" "key-b" active.
Definition blankKey : ApiKey.t := ApiKey.mk "blank" "   " active.
Definition app : App := initialApp [alice; bob] "Launch plan" [keyA; keyB].
Definition ok (t : string) : Event := BackendReplies (Success t).
Definition agendaText : string := "Pricing" ++ Js.nl ++ "Timeline".
Definition txt (a p : nat) : string :=
  match a, p with
  | O, O => "a1"
  | O, S _ => "b1"
  | S _, O => "a2"
  | S _, S _ => "b2"
  end.
Definition quota : Event := BackendReplies (Failure "429 RESOURCE_EXHAUSTED").
Definition badKey : Event := BackendReplies (Failure "API key not valid").
End Ex.

Definition noThinking (h : list ChatMessage) : bool := forallb notThinking h.

(** The invariant of the controller: only the last entry of the transcript
    can be a thinking entry, and it is one only while the call of a persona
    turn is pending; a pending call holds its signal and its pool and keeps
    the controller waiting until the meeting is stopped. *)
Definition Inv (s : App) : Prop :=
  noThinking (removelast (chatHistory s)) = true
  /\ match suspended s with
     | Some f =>
         match continuation f with
         | AfterTurn _ => True
         | _ => noThinking (chatHistory s) = true
         end
         /\ abortControllerRef s <> None
         /\ orchestratorRef s <> None
         /\ (isWaitingForAI s = true \/ isMeetingRunning s = false)
     | None => noThinking (chatHistory s) = true
     end.

(** No call is pending, no entry is a thinking entry, and the meeting is
    not running. *)
Definition stoppedClean (s : App) : Prop :=
  suspended s = None
  /\ noThinking (chatHistory s) = true
  /\ isMeetingRunning s = false
  /\ isWaitingForAI s = false.

(** A controller that is not running is not waiting, and a call that is
    still pending on it has seen its signal aborted. *)
Definition Idle (s : App) : Prop :=
  (isMeetingRunning s = false -> isWaitingForAI s = false)
  /\ (suspended s <> None -> isMeetingRunning s = false ->
      abortControllerRef s = Some true).





Definition slot (s : App) : option string := userIntervention (meetingStateRef s).






(** *** A meeting without interjection, failure or cancellation *)

(** The entry of a completed persona turn. *)
Definition personaTurn (p : Persona.t) (t : string) : ChatMessage :=
  finalMessageOf (thinkingMessageOf p) t.

(** The environment of such a meeting: whenever no call is pending the
    timer of the scheduling effect fires, and the backend answers each
    attempt with the next reply of the list. *)
Fixpoint serve (replies : list BackendResult) (s : App) : App :=
  match replies with
  | [] => s
  | r :: rs =>
      let s1 := match suspended s with
                | Some _ => s
                | None => step TimerFires s
                end in
      serve rs (step (BackendReplies r) s1)
  end.

(** The controller between two steps of a running meeting, after the turn
    of persona [p] on agenda item [a]. *)
Definition midApp (base : App) (ps : list Persona.t) (usable : list ApiKey.t)
    (items : list string) (a p i : nat) (H : list ChatMessage) (log : list Call)
  : App :=
  mkApp ps (meetingTopic base) (apiKeys base) H true false (error base)
    (Some false) (Some (mkManager usable i))
    (mkMeetingState items (Z.of_nat a) (Z.of_nat p) None) None
    (cooldownTimers base) log.

Definition MidState (ps : list Persona.t) (usable : list ApiKey.t)
    (items : list string) (a p : nat) (H : list ChatMessage) (s : App) : Prop :=
  exists base i log,
    i < List.length usable /\ noThinking H = true
    /\ s = midApp base ps usable items a p i H log.

(** The transcript of such a meeting, as the code builds it: the first
    agenda item is not announced. *)
Fixpoint turnsOf (txt : nat -> string) (p : nat) (ps : list Persona.t)
  : list ChatMessage :=
  match ps with
  | [] => []
  | q :: ps' => personaTurn q (txt p) :: turnsOf txt (S p) ps'
  end.

Fixpoint blocksOf (ps : list Persona.t) (txt : nat -> nat -> string) (a : nat)
    (items : list string) : list ChatMessage :=
  match items with
  | [] => []
  | it :: items' =>
      (if a =? 0 then [] else [topicNotice it])
      ++ turnsOf (txt a) 0 ps ++ blocksOf ps txt (S a) items'
  end.

Definition codeTranscript (ps : list Persona.t) (items : list string)
    (txt : nat -> nat -> string) (summary : string) : list ChatMessage :=
  [openingNotice; agendaNotice items] ++ blocksOf ps txt 0 items
  ++ [completeNotice; summaryMessage summary; closingNotice].

(** The replies of the backend: the agenda, one text per persona turn
    ([txt a p] for persona [p] on item [a]) and the summary. *)
Fixpoint turnReplies (txt : nat -> string) (p : nat) (ps : list Persona.t)
  : list BackendResult :=
  match ps with
  | [] => []
  | _ :: ps' => Success (txt p) :: turnReplies txt (S p) ps'
  end.

Fixpoint blockReplies (ps : list Persona.t) (txt : nat -> nat -> string)
    (a : nat) (items : list string) : list BackendResult :=
  match items with
  | [] => []
  | _ :: items' => turnReplies (txt a) 0 ps ++ blockReplies ps txt (S a) items'
  end.

Definition meetingReplies (ps : list Persona.t) (agendaText : string)
    (txt : nat -> nat -> string) (summary : string) : list BackendResult :=
  Success agendaText
  :: blockReplies ps txt 0 (agendaOfResponse agendaText) ++ [Success summary].

Definition isPersonaTurn (m : ChatMessage) : bool :=
  negb (isOrchestrator m) && negb (isUser m).


(** The transcript as the specification words it: every agenda item is
    announced. *)
Fixpoint specBlocksOf (ps : list Persona.t) (txt : nat -> nat -> string) (a : nat)
    (items : list string) : list ChatMessage :=
  match items with
  | [] => []
  | it :: items' =>
      [topicNotice it] ++ turnsOf (txt a) 0 ps ++ specBlocksOf ps txt (S a) items'
  end.

Definition specTranscript (ps : list Persona.t) (items : list string)
    (txt : nat -> nat -> string) (summary : string) : list ChatMessage :=
  [openingNotice; agendaNotice items] ++ specBlocksOf ps txt 0 items
  ++ [completeNotice; summaryMessage summary; closingNotice].

(** ** A whole call of the gateway *)

(** How a call of [generateContentWithRetry] ends: it returns the response
    of the attempt made with [usedKey], it throws, or the backend has not
    answered the attempt made with [apiKey]. *)
Inductive CallResult :=
| Returned (responseText usedKey : string)
| Threw (e : Thrown)
| Unanswered (apiKey : string).

(** The loop of the gateway, having run to [o], against the replies of the
    backend in the order they arrive.  The number counts the attempts the
    backend answered. *)
Fixpoint answer (replies : list BackendResult) (aborted : bool)
    (o : LoopOutcome * ApiKeyManager) : CallResult * ApiKeyManager * nat :=
  match fst o with
  | Rejected e => (Threw e, snd o, 0)
  | Suspended apiKey n =>
      match replies with
      | [] => (Unanswered apiKey, snd o, 0)
      | Success responseText :: _ => (Returned responseText apiKey, snd o, 1)
      | Failure errorMessage :: rest =>
          let '(r, m, k) :=
            answer rest aborted (attemptFailed errorMessage apiKey n aborted (snd o)) in
          (r, m, S k)
      end
  end.

Definition callGateway (replies : list BackendResult) (aborted : bool)
    (m : ApiKeyManager) : CallResult * ApiKeyManager * nat :=
  answer replies aborted (generateContentWithRetry aborted m).

Definition attemptsOf (x : CallResult * ApiKeyManager * nat) : nat := snd x.
Definition resultOf (x : CallResult * ApiKeyManager * nat) : CallResult :=
  fst (fst x).
Definition poolOf (x : CallResult * ApiKeyManager * nat) : ApiKeyManager :=
  snd (fst x).

(** The loop awaiting the attempt made with the key at position [i], with
    [n] iterations left. *)
Definition awaitingAt (ks : list ApiKey.t) (i n : nat)
  : LoopOutcome * ApiKeyManager :=
  (Suspended (valueAt ks i) n, mkManager ks ((i + 1) mod List.length ks)).

(** ** The key list of the settings *)

(** [handleAddApiKey] of [App.tsx]; a value already in the list only raises
    an alert. *)
Definition handleAddApiKey (key : string) (ks : list ApiKey.t) : list ApiKey.t :=
  if existsb (fun k => String.eqb (ApiKey.value k) key) ks then ks
  else (ks ++ [ApiKey.mk key key unchecked])%list.

(** [handleAddKey] of [SettingsPanel], with [onAddApiKey = handleAddApiKey]. *)
Definition handleAddKey (newApiKey : string) (ks : list ApiKey.t) : list ApiKey.t :=
  if Js.truthy (Some (Js.trim newApiKey)) then handleAddApiKey (Js.trim newApiKey) ks
  else ks.

(** [handleDeleteApiKey] *)
Definition handleDeleteApiKey (idToDelete : string) (ks : list ApiKey.t)
  : list ApiKey.t :=
  filter (fun k => negb (String.eqb (ApiKey.id k) idToDelete)) ks.

(** The key lists the settings produce from the empty list: keys are added
    and deleted, and the status of the key with a given id is replaced (by
    the two updates of [handleCheckApiKey], by the [catch] block of
    [runMeetingStep] and by its cooldown callback). *)
Inductive uiKeys : list ApiKey.t -> Prop :=
| ui_none : uiKeys []
| ui_add newApiKey ks : uiKeys ks -> uiKeys (handleAddKey newApiKey ks)
| ui_delete id ks : uiKeys ks -> uiKeys (handleDeleteApiKey id ks)
| ui_status id st ks : uiKeys ks -> uiKeys (map (markStatus id st) ks).

Definition keyOk (k : ApiKey.t) : Prop :=
  ApiKey.id k = ApiKey.value k
  /\ Js.trim (ApiKey.value k) = ApiKey.value k
  /\ ApiKey.value k <> EmptyString.

(** ** Personas *)

(** [Array.prototype.findIndex]: [None] stands for [-1]. *)
Fixpoint findIndex {A} (f : A -> bool) (l : list A) : option nat :=
  match l with
  | [] => None
  | x :: l' => if f x then Some 0 else option_map S (findIndex f l')
  end.

(** [handleSavePersona] *)
Definition handleSavePersona (persona : Persona.t) (personas : list Persona.t)
  : list Persona.t :=
  match findIndex (fun p => String.eqb (Persona.id p) (Persona.id persona))
          personas with
  | Some index =>
      (firstn index personas ++ persona :: skipn (index + 1) personas)%list
  | None => (personas ++ [persona])%list
  end.

(** [handleDeletePersona]; [confirmed] is the answer to [window.confirm]. *)
Definition handleDeletePersona (confirmed : bool) (id : string)
    (personas : list Persona.t) : list Persona.t :=
  if confirmed then filter (fun p => negb (String.eqb (Persona.id p) id)) personas
  else personas.

(** [personas.find(p => p.id === id)] *)
Definition findPersona (id : string) (personas : list Persona.t)
  : option Persona.t :=
  find (fun p => String.eqb (Persona.id p) id) personas.

(** [DEFAULT_PERSONAS] of [App.tsx] *)
Definition DEFAULT_PERSONAS : list Persona.t :=
  [ Persona.mk "1" "Alice" "Marketing Director - Focused on strategy and ROI.";
    Persona.mk "2" "Bob"
      "Content Creator - Specializes in engaging blog posts and video scripts.";
    Persona.mk "3" "Charlie"
      "SEO Specialist - Drives organic traffic and keyword optimization.";
    Persona.mk "4" "Diana"
      "Social Media Manager - Manages brand presence on all platforms." ].

(** [PersonaForm.handleSubmit], with [onSave = handleSavePersona]; [now] is
    the value of [new Date().toISOString()]. *)
Definition submitPersona (personaToEdit : option Persona.t)
    (name role now : string) (personas : list Persona.t) : list Persona.t :=
  if negb (Js.truthy (Some (Js.trim name))) || negb (Js.truthy (Some (Js.trim role)))
  then personas
  else
    handleSavePersona
      (Persona.mk (match personaToEdit with
                   | Some p => Persona.id p
                   | None => now
                   end) name role)
      personas.

(** The persona lists the form and the delete button produce from the
    default personas. *)
Inductive formPersonas : list Persona.t -> Prop :=
| fp_default : formPersonas DEFAULT_PERSONAS
| fp_submit personaToEdit name role now ps :
    formPersonas ps -> formPersonas (submitPersona personaToEdit name role now ps)
| fp_delete confirmed id ps :
    formPersonas ps -> formPersonas (handleDeletePersona confirmed id ps).

(** ** The intervention form *)

(** [InterventionForm.handleSubmit] of [MeetingRoom], rendered with
    [isEnabled = !isWaitingForAI] and [onSendMessage = handleSendMessage]. *)
Definition submitIntervention (text : string) (s : App) : App :=
  if Js.truthy (Some (Js.trim text)) && negb (isWaitingForAI s)
  then handleSendMessage (Js.trim text) s
  else s.

(** ** Further definitions used by the statements *)

(** [s] does not begin with a code unit that [trim] strips. *)
Definition startsClean (s : string) : Prop :=
  match s with
  | EmptyString => True
  | String c _ => Js.isWhitespace c = false
  end.

(** [s.includes(c)] for one code unit. *)
Fixpoint hasChar (c : ascii) (s : string) : bool :=
  match s with
  | EmptyString => false
  | String d s' => Ascii.eqb d c || hasChar c s'
  end.




(** [ks'] is [ks] with some statuses replaced by ['rate-limited'] or
    ['active']: the same keys in the same order. *)
Definition restatused (ks ks' : list ApiKey.t) : Prop :=
  Forall2 (fun k k' =>
             ApiKey.id k' = ApiKey.id k /\ ApiKey.value k' = ApiKey.value k
             /\ (ApiKey.status k' = ApiKey.status k
                 \/ ApiKey.status k' = rate_limited
                 \/ ApiKey.status k' = active)) ks ks'.

(** The step from [s] to [s'] ended the meeting with an error message. *)
Definition failed (s s' : App) : Prop :=
  isMeetingRunning s' = false /\ suspended s' = None
  /\ (exists msg, error s' = Some msg) /\ restatused (apiKeys s) (apiKeys s').

(** * Properties *)

(** ** The credential pool *)

Lemma ApiKeyStatus_eqb_eq a b : ApiKeyStatus_eqb a b = true <-> a = b.
Proof. destruct a, b; simpl; split; congruence. Qed.

Lemma getNextKey_wf m :
  wf m ->
  getNextKey m
  = (nth_error (keys m) (currentIndex m),
     mkManager (keys m) ((currentIndex m + 1) mod List.length (keys m))).
Proof.
  unfold wf, getNextKey, getAvailableKeyCount; intros H.
  destruct (List.length (keys m)) eqn:E; [lia|]. reflexivity.
Qed.

Lemma getNextKey_keys m : keys (snd (getNextKey m)) = keys m.
Proof.
  unfold getNextKey. destruct (getAvailableKeyCount m =? 0); reflexivity.
Qed.

Lemma getNextKey_preserves_wf m : wf m -> wf (snd (getNextKey m)).
Proof.
  intros H. rewrite (getNextKey_wf m H). unfold wf in *; simpl.
  apply Nat.mod_upper_bound. lia.
Qed.

Lemma afterDraws_keys n : forall m, keys (afterDraws n m) = keys m.
Proof.
  induction n as [|n IH]; intros m; simpl; [reflexivity|].
  rewrite IH. apply getNextKey_keys.
Qed.

Lemma afterDraws_wf n : forall m, wf m -> wf (afterDraws n m).
Proof.
  induction n as [|n IH]; intros m H; simpl; [exact H|].
  apply IH, getNextKey_preserves_wf, H.
Qed.

Lemma afterDraws_index n : forall m,
  wf m ->
  currentIndex (afterDraws n m) = (currentIndex m + n) mod List.length (keys m).
Proof.
  induction n as [|n IH]; intros m H; simpl.
  - rewrite Nat.add_0_r. symmetry. apply Nat.mod_small. exact H.
  - rewrite IH by (apply getNextKey_preserves_wf, H).
    rewrite getNextKey_keys. rewrite (getNextKey_wf m H). simpl.
    rewrite Nat.Div0.add_mod_idemp_l. f_equal. lia.
Qed.

Lemma newApiKeyManager_wf ks :
  filter usableAtCreation ks <> [] -> wf (newApiKeyManager ks).
Proof.
  unfold wf, newApiKeyManager; simpl.
  destruct (filter usableAtCreation ks); [congruence|simpl; lia].
Qed.

(** The [n]-th call (from 0) of [getNextKey] on a pool created from [ks]
    returns entry [n mod c] of the keys that were usable at creation. *)
Lemma nth_draw ks n :
  filter usableAtCreation ks <> [] ->
  fst (getNextKey (afterDraws n (newApiKeyManager ks)))
  = nth_error (filter usableAtCreation ks)
      (n mod List.length (filter usableAtCreation ks)).
Proof.
  intros Hne.
  pose proof (newApiKeyManager_wf ks Hne) as Hwf.
  rewrite getNextKey_wf by (apply afterDraws_wf, Hwf).
  simpl. rewrite afterDraws_keys, afterDraws_index by exact Hwf.
  reflexivity.
Qed.

(** *** Counting the draws of a rotation *)



Lemma first_attempt m :
  wf m ->
  generateContentWithRetry false m
  = (Suspended (valueAt (keys m) (currentIndex m)) (List.length (keys m) - 1),
     mkManager (keys m) ((currentIndex m + 1) mod List.length (keys m))).
Proof.
  intros H. unfold generateContentWithRetry, getAvailableKeyCount.
  pose proof H as H'. unfold wf in H'.
  destruct (List.length (keys m)) as [|c] eqn:E; [lia|].
  simpl Nat.eqb. cbv iota. simpl keyLoop.
  rewrite (getNextKey_wf m H), E. unfold valueAt.
  destruct (nth_error (keys m) (currentIndex m)) eqn:N.
  - f_equal. f_equal. simpl. lia.
  - apply nth_error_None in N. lia.
Qed.







(** *** Blank values *)

Lemma trimEnd_empty s : Js.trimEnd s = EmptyString <-> onlyWhitespace s = true.
Proof.
  unfold onlyWhitespace. induction s as [|c s IH]; simpl; [tauto|].
  destruct (Js.trimEnd s) eqn:E.
  - destruct (Js.isWhitespace c); simpl.
    + rewrite <- IH. tauto.
    + split; discriminate.
  - split; [discriminate|]. intros H. apply andb_prop in H as [_ H].
    apply IH in H. discriminate.
Qed.

Lemma trimStart_whitespace s : onlyWhitespace (Js.trimStart s) = onlyWhitespace s.
Proof.
  unfold onlyWhitespace. induction s as [|c s IH]; simpl; [reflexivity|].
  destruct (Js.isWhitespace c) eqn:E; simpl; [exact IH|].
  rewrite E. reflexivity.
Qed.

Lemma trim_empty s : Js.trim s = EmptyString <-> onlyWhitespace s = true.
Proof.
  unfold Js.trim. rewrite trimEnd_empty, trimStart_whitespace. tauto.
Qed.

Lemma usableAtCreation_spec k :
  usableAtCreation k = true
  <-> ApiKey.status k = active /\ onlyWhitespace (ApiKey.value k) = false.
Proof.
  unfold usableAtCreation. rewrite andb_true_iff, ApiKeyStatus_eqb_eq, negb_true_iff.
  rewrite String.eqb_neq, trim_empty.
  destruct (onlyWhitespace (ApiKey.value k)); intuition congruence.
Qed.

(** *** The pool of a controller is replaced only by a start *)

Lemma afterDraws_add j1 : forall j2 m,
  afterDraws j2 (afterDraws j1 m) = afterDraws (j1 + j2) m.
Proof.
  induction j1 as [|j1 IH]; intros j2 m; simpl; [reflexivity|apply IH].
Qed.

Lemma keyLoop_drawn n aborted : forall m,
  exists j, snd (keyLoop n aborted m) = afterDraws j m.
Proof.
  induction n as [|n IH]; intros m; simpl.
  - exists 1. simpl. destruct (getNextKey m); reflexivity.
  - destruct (getNextKey m) as [k m'] eqn:E.
    assert (Em : m' = afterDraws 1 m) by (simpl; rewrite E; reflexivity).
    destruct k as [key|].
    + exists 1. destruct aborted; exact Em.
    + destruct (IH m') as [j Hj]. exists (1 + j).
      rewrite Hj, Em. apply afterDraws_add.
Qed.

Lemma generateContentWithRetry_drawn aborted m :
  exists j, snd (generateContentWithRetry aborted m) = afterDraws j m.
Proof.
  unfold generateContentWithRetry.
  destruct (getAvailableKeyCount m =? 0); [exists 0; reflexivity|].
  apply keyLoop_drawn.
Qed.

Lemma attemptFailed_drawn msg apiKey n aborted m :
  exists j, snd (attemptFailed msg apiKey n aborted m) = afterDraws j m.
Proof.
  unfold attemptFailed.
  destruct (isRateLimitError msg); [apply keyLoop_drawn|exists 0; reflexivity].
Qed.

Lemma catchBlock_orchestratorRef cl e s :
  orchestratorRef (catchBlock cl e s) = orchestratorRef s.
Proof.
  unfold catchBlock. destruct e as [msg| |msg fk]; simpl; try reflexivity.
  destruct (find _ _); reflexivity.
Qed.

Lemma settle_orchestratorRef cl k o s :
  orchestratorRef (settle cl k o s) = Some (snd o).
Proof.
  unfold settle. destruct (fst o); [reflexivity|].
  rewrite catchBlock_orchestratorRef. reflexivity.
Qed.

Lemma invoke_samePool m cl k call s :
  samePool m s -> samePool m (invoke cl k call s).
Proof.
  intros [j H]. unfold invoke.
  destruct (abortControllerRef s) as [aborted|].
  - rewrite H.
    destruct (generateContentWithRetry_drawn aborted (afterDraws j m)) as [j' Hj'].
    exists (j + j'). rewrite settle_orchestratorRef, Hj', afterDraws_add.
    reflexivity.
  - exists j. rewrite catchBlock_orchestratorRef. exact H.
Qed.

Lemma discuss_samePool m cl s : samePool m s -> samePool m (discuss cl s).
Proof.
  intros H. unfold discuss.
  destruct (_ >=? Z.of_nat (List.length (agenda _)))%Z.
  - apply invoke_samePool. exact H.
  - match goal with
    | |- samePool m (match ?a with _ => _ end) => destruct a as [s1|] eqn:Ea
    end.
    + assert (H1 : samePool m s1).
      { destruct (_ >? _)%Z in Ea.
        - destruct (Js.nth _ _) in Ea; inversion Ea; subst; exact H.
        - inversion Ea; subst; exact H. }
      destruct (Js.nth (c_personas cl) _).
      * apply invoke_samePool. exact H1.
      * destruct H1 as [j H1]. exists j.
        rewrite catchBlock_orchestratorRef. exact H1.
    + destruct H as [j H]. exists j.
      rewrite catchBlock_orchestratorRef. exact H.
Qed.

Lemma step_samePool m e s :
  e <> StartMeeting -> samePool m s -> samePool m (step e s).
Proof.
  intros He H. destruct e as [| | |t| |r|id]; simpl; try congruence.
  - destruct H as [j H]. exists j. unfold handleStopMeeting.
    destruct (abortControllerRef s); exact H.
  - destruct H as [j H]. exists j. unfold handleResetMeeting, handleStopMeeting.
    destruct (abortControllerRef s); exact H.
  - unfold handleSendMessage. destruct (_ || _); exact H.
  - destruct (tickScheduled s); [|exact H]. unfold runMeetingStep.
    destruct (orchestratorRef s) eqn:Eo; [|exact H].
    destruct (negb (isMeetingRunning s)); [exact H|].
    destruct (match abortControllerRef s with Some a => a | None => false end).
    + destruct H as [j H]. exists j. exact H.
    + destruct (agenda (meetingStateRef s)).
      * apply invoke_samePool. exact H.
      * apply discuss_samePool. exact H.
  - unfold backendReply. destruct (suspended s) as [f|]; [|exact H].
    destruct r as [t|msg].
    + unfold resolved. destruct (continuation f).
      * apply discuss_samePool. exact H.
      * exact H.
      * exact H.
    + destruct H as [j H]. rewrite H.
      destruct (attemptFailed_drawn msg (attemptKey f) (attemptsLeft f)
                  match abortControllerRef s with Some a => a | None => false end
                  (afterDraws j m)) as [j' Hj'].
      exists (j + j'). rewrite settle_orchestratorRef, Hj', afterDraws_add.
      reflexivity.
  - unfold cooldownExpires. destruct (existsb _ _); exact H.
Qed.

Lemma run_samePool m evs : forall s,
  Forall (fun e => e <> StartMeeting) evs -> samePool m s -> samePool m (run evs s).
Proof.
  induction evs as [|e evs IH]; intros s HF H; [exact H|].
  inversion HF; subst. apply IH; [assumption|].
  apply step_samePool; assumption.
Qed.

Lemma draws_In n : forall m key,
  In (Some key) (draws n m) -> In key (keys m).
Proof.
  induction n as [|n IH]; intros m key H; [destruct H|].
  simpl in H. pose proof (getNextKey_keys m) as K.
  unfold getNextKey in *. destruct (getAvailableKeyCount m =? 0); simpl in *.
  - destruct H as [H|H]; [discriminate|]. apply IH in H. exact H.
  - destruct H as [H|H].
    + apply nth_error_In in H. exact H.
    + apply IH in H. exact H.
Qed.

(** C10: the pool of a gateway instance is a snapshot taken when the
    instance is created.  Every key it ever returns was in the key list
    given to the constructor with status [active] and a value that is not
    blank; a key whose value is only whitespace does not count, whatever
    its status; and after any events of the controller other than a new
    start the pool is the one created, some draws later, so status changes
    made after creation neither add a key to the rotation nor remove
    one. *)
Theorem pool_is_creation_snapshot (ks : list ApiKey.t) :
  (forall n key,
      In (Some key) (draws n (newApiKeyManager ks)) ->
      In key ks /\ ApiKey.status key = active
      /\ Js.trim (ApiKey.value key) <> EmptyString)
  /\ (forall k,
         onlyWhitespace (ApiKey.value k) = true ->
         getAvailableKeyCount (newApiKeyManager (k :: ks))
         = getAvailableKeyCount (newApiKeyManager ks))
  /\ (forall evs s,
         orchestratorRef s = Some (newApiKeyManager ks) ->
         Forall (fun e => e <> StartMeeting) evs ->
         exists j, orchestratorRef (run evs s)
                   = Some (afterDraws j (newApiKeyManager ks))).
Proof.
  split; [|split].
  - intros n key H. apply draws_In in H. simpl in H.
    apply filter_In in H as [H1 H2]. split; [exact H1|].
    apply usableAtCreation_spec in H2 as [H2 H3]. split; [exact H2|].
    rewrite trim_empty. congruence.
  - intros k H. unfold getAvailableKeyCount, newApiKeyManager. simpl.
    destruct (usableAtCreation k) eqn:E; [|reflexivity].
    apply usableAtCreation_spec in E as [_ E]. congruence.
  - intros evs s H HF.
    apply (run_samePool (newApiKeyManager ks) evs s HF).
    exists 0. exact H.
Qed.

Lemma pool_is_creation_snapshot_witness :
  In Ex.keyA [Ex.blankKey; Ex.keyA; ApiKey.mk "key-b" "key-b" rate_limited]
  /\ ApiKey.status Ex.keyA = active
  /\ Js.trim (ApiKey.value Ex.keyA) <> EmptyString.
Proof.
  apply (proj1 (pool_is_creation_snapshot
                  [Ex.blankKey; Ex.keyA; ApiKey.mk "key-b" "key-b" rate_limited])
           3 Ex.keyA).
  vm_compute. left. reflexivity.
Defined.

(** C4, as stated, fails.  First: a first meeting ends because the call of
    key-a fails, which sets key-a to rate-limited; a second meeting is
    started, and then the cooldown of key-a expires.  By its current status
    key-a is usable, yet the pool of the running meeting never returns it.
    Second: on a pool created from key-a and key-b, after one call, key-b
    is returned by the next call also when its status in the key list has
    changed to rate-limited in between. *)
Lemma next_does_not_recompute_usable_subset :
  (let s := run [StartMeeting; TimerFires; Ex.badKey; StartMeeting;
                 CooldownFires "key-a"] Ex.app in
   usableNow (apiKeys s) "key-a" = true
   /\ isMeetingRunning s = true
   /\ exists m, orchestratorRef s = Some m
                /\ draws 3 m = [Some Ex.keyB; Some Ex.keyB; Some Ex.keyB])
  /\ (let ks := [Ex.keyA; Ex.keyB] in
      usableNow (map (markStatus "key-b" rate_limited) ks) "key-b" = false
      /\ fst (getNextKey (afterDraws 1 (newApiKeyManager ks))) = Some Ex.keyB).
Proof.
  split.
  - vm_compute. repeat split. eexists. split; reflexivity.
  - vm_compute. split; reflexivity.
Qed.

(** C4, amended: the cursor of [getNextKey] ranges over the keys that were
    usable when the pool was created, in their order in the key list: the
    [n]-th call returns entry [n mod c] of that subset.  The subset is not
    recomputed: after any events of the controller other than a new start,
    the pool is the one created, some draws later. *)
Theorem next_ranges_over_creation_snapshot (ks : list ApiKey.t) :
  filter usableAtCreation ks <> [] ->
  (forall n,
      fst (getNextKey (afterDraws n (newApiKeyManager ks)))
      = nth_error (filter usableAtCreation ks)
          (n mod List.length (filter usableAtCreation ks)))
  /\ (forall evs s n,
         orchestratorRef s = Some (afterDraws n (newApiKeyManager ks)) ->
         Forall (fun e => e <> StartMeeting) evs ->
         exists j, orchestratorRef (run evs s)
                   = Some (afterDraws j (newApiKeyManager ks))).
Proof.
  intros Hne. split.
  - intros n. apply nth_draw. exact Hne.
  - intros evs s n H HF.
    apply (run_samePool (newApiKeyManager ks) evs s HF).
    exists n. exact H.
Qed.

Lemma next_ranges_over_creation_snapshot_witness :
  fst (getNextKey (afterDraws 5 (newApiKeyManager [Ex.keyA; Ex.blankKey; Ex.keyB])))
  = Some Ex.keyB.
Proof.
  apply (proj1 (next_ranges_over_creation_snapshot
                  [Ex.keyA; Ex.blankKey; Ex.keyB] ltac:(discriminate)) 5).
Defined.

(** ** The generation gateway and the [catch] of the controller *)

(** C5, as stated, fails: the first attempt of the agenda call, made with
    key-a, fails with a quota error.  The call goes on with key-b, but the
    status of key-a stays [active], also after the call has succeeded. *)
Lemma rate_limited_attempt_marks_no_key :
  isRateLimitError "429 RESOURCE_EXHAUSTED" = true
  /\ (let s := run [StartMeeting; TimerFires; Ex.quota] Ex.app in
      option_map attemptKey (suspended s) = Some "key-b"
      /\ apiKeys s = [Ex.keyA; Ex.keyB])
  /\ (let s := run [StartMeeting; TimerFires; Ex.quota; Ex.ok "Pricing"] Ex.app in
      isMeetingRunning s = true /\ apiKeys s = [Ex.keyA; Ex.keyB]).
Proof. vm_compute. repeat split. Qed.

Lemma keyLoop_next n aborted m :
  wf m ->
  keyLoop n aborted m
  = (match n with
     | O => Rejected (RateLimitError allLimitedMessage
                        (valueAt (keys m) (currentIndex m)))
     | S n' => if aborted then Rejected AbortError
               else Suspended (valueAt (keys m) (currentIndex m)) n'
     end,
     snd (getNextKey m)).
Proof.
  intros H. pose proof H as H'. unfold wf in H'.
  destruct (nth_error (keys m) (currentIndex m)) as [key|] eqn:N;
    [|apply nth_error_None in N; lia].
  unfold valueAt. rewrite N.
  destruct n; simpl; rewrite (getNextKey_wf m H), N; simpl.
  - reflexivity.
  - destruct aborted; reflexivity.
Qed.

(** C5, amended: when an attempt fails with an error classified as rate or
    quota limiting, in a meeting that was not cancelled, no status is set at
    that point.  While attempts are left the call goes on with the key that
    the rotation yields next, and nothing else changes.  When the failed
    attempt was the last one of the call, the call fails, the meeting stops,
    and the controller sets to rate-limited only the key that the rotation
    yields next (looked up by value in the key list of the step). *)
Theorem rate_limited_attempt_rotates (s : App) (f : InFlight)
    (m : ApiKeyManager) (msg : string) :
  suspended s = Some f ->
  orchestratorRef s = Some m ->
  wf m ->
  abortControllerRef s = Some false ->
  isRateLimitError msg = true ->
  let s' := backendReply (Failure msg) s in
  let next := valueAt (keys m) (currentIndex m) in
  (forall n, attemptsLeft f = S n ->
     suspended s' = Some (mkInFlight (closure f) (continuation f) next n)
     /\ apiKeys s' = apiKeys s
     /\ chatHistory s' = chatHistory s
     /\ isMeetingRunning s' = isMeetingRunning s
     /\ error s' = error s)
  /\ (attemptsLeft f = 0 ->
      suspended s' = None
      /\ isMeetingRunning s' = false
      /\ error s' = Some ("An error occurred: " ++ allLimitedMessage)%string
      /\ apiKeys s'
         = match find (fun k => String.eqb (ApiKey.value k) next)
                      (c_apiKeys (closure f)) with
           | Some fk => map (markStatus (ApiKey.id fk) rate_limited) (apiKeys s)
           | None => apiKeys s
           end).
Proof.
  intros Hs Ho Hwf Ha Hr s' next. subst s' next.
  unfold backendReply. rewrite Hs, Ho, Ha. unfold attemptFailed. rewrite Hr.
  rewrite (keyLoop_next _ false m Hwf). split.
  - intros n Hn. rewrite Hn. unfold settle. simpl. repeat split; reflexivity.
  - intros Hn. rewrite Hn. unfold settle, catchBlock. simpl.
    destruct (find _ (c_apiKeys (closure f))); simpl; repeat split; reflexivity.
Qed.

Lemma rate_limited_attempt_rotates_witness :
  let s := run [StartMeeting; TimerFires] Ex.app in
  let s' := backendReply (Failure "Rate limit reached") s in
  option_map attemptKey (suspended s') = Some "key-b"
  /\ apiKeys s' = apiKeys s.
Proof.
  intros s s'.
  assert (Hs : suspended s
               = Some (mkInFlight (closureOf (handleStartMeeting Ex.app))
                         AfterAgenda "key-a" 1)) by reflexivity.
  destruct (rate_limited_attempt_rotates s _
              (mkManager [Ex.keyA; Ex.keyB] 1) "Rate limit reached" Hs
              eq_refl ltac:(unfold wf; simpl; lia) eq_refl eq_refl)
    as [H _].
  destruct (H 0 eq_refl) as [H1 [H2 _]].
  split; [|exact H2].
  unfold s'. rewrite H1. reflexivity.
Defined.

(** C2: the code at the failing input.  The attempt of the agenda call made
    with key-a fails with an error that is not a rate or quota error.  The
    call fails at once (key-b is never tried) and the meeting stops, but the
    status of key-a becomes [rate_limited], not [invalid], with a cooldown
    pending; when the cooldown expires key-a is [active] again without any
    check. *)
Theorem invalid_key_is_marked_rate_limited :
  let s := run [StartMeeting; TimerFires; Ex.badKey] Ex.app in
  isRateLimitError "API key not valid" = false
  /\ suspended s = None
  /\ isMeetingRunning s = false
  /\ option_map currentIndex (orchestratorRef s) = Some 1
  /\ apiKeys s = [ApiKey.withStatus rate_limited Ex.keyA; Ex.keyB]
  /\ cooldownTimers s = ["key-a"%string]
  /\ apiKeys (step (CooldownFires "key-a") s) = [Ex.keyA; Ex.keyB].
Proof. vm_compute. repeat split. Qed.

(** ** The invariant of the controller *)

Lemma noThinking_app h1 h2 :
  noThinking (h1 ++ h2) = noThinking h1 && noThinking h2.
Proof. apply forallb_app. Qed.

Lemma noThinking_filter h : noThinking (filter notThinking h) = true.
Proof.
  apply forallb_forall. intros x H. apply filter_In in H. tauto.
Qed.

Lemma exists_last_or {A} (l : list A) : l = [] \/ exists l' x, l = (l' ++ [x])%list.
Proof.
  destruct l as [|a l]; [left; reflexivity|right].
  destruct (exists_last (l := a :: l)) as [l' [x E]]; [discriminate|].
  exists l', x. exact E.
Qed.

Lemma noThinking_removelast h :
  noThinking h = true -> noThinking (removelast h) = true.
Proof.
  intros H. destruct (exists_last_or h) as [E|[h' [x E]]]; subst h.
  - reflexivity.
  - rewrite removelast_last. rewrite noThinking_app in H.
    apply andb_prop in H. tauto.
Qed.

Lemma settled_Inv s :
  suspended s = None -> noThinking (chatHistory s) = true -> Inv s.
Proof.
  intros H1 H2. unfold Inv. rewrite H1. split; [|exact H2].
  apply noThinking_removelast, H2.
Qed.

Lemma catchBlock_settled cl e s :
  suspended (catchBlock cl e s) = None
  /\ noThinking (chatHistory (catchBlock cl e s)) = true
  /\ isMeetingRunning (catchBlock cl e s) = false
  /\ isWaitingForAI (catchBlock cl e s) = false.
Proof.
  unfold catchBlock. simpl. repeat split. apply noThinking_filter.
Qed.

Lemma catchBlock_Inv cl e s : Inv (catchBlock cl e s).
Proof. apply settled_Inv; apply catchBlock_settled. Qed.

Lemma settle_Inv cl k o s :
  noThinking (removelast (chatHistory s)) = true ->
  match k with AfterTurn _ => True | _ => noThinking (chatHistory s) = true end ->
  abortControllerRef s <> None ->
  isWaitingForAI s = true \/ isMeetingRunning s = false ->
  Inv (settle cl k o s).
Proof.
  intros H1 H2 H3 H4. unfold settle. destruct (fst o).
  - unfold Inv. simpl. split; [exact H1|]. repeat split; auto. discriminate.
  - apply catchBlock_Inv.
Qed.

Lemma invoke_Inv cl k call s :
  noThinking (removelast (chatHistory s)) = true ->
  match k with AfterTurn _ => True | _ => noThinking (chatHistory s) = true end ->
  orchestratorRef s <> None ->
  isWaitingForAI s = true \/ isMeetingRunning s = false ->
  Inv (invoke cl k call s).
Proof.
  intros H1 H2 H3 H4. unfold invoke.
  destruct (abortControllerRef s) as [aborted|] eqn:Ea; [|apply catchBlock_Inv].
  destruct (orchestratorRef s) as [m|]; [|congruence].
  apply settle_Inv; simpl; auto. rewrite Ea. discriminate.
Qed.

Lemma discuss_Inv cl s :
  noThinking (chatHistory s) = true ->
  orchestratorRef s <> None ->
  Inv (discuss cl s).
Proof.
  intros H1 H2. unfold discuss.
  destruct (_ >=? Z.of_nat (List.length (agenda _)))%Z.
  - apply invoke_Inv; simpl; auto.
    + rewrite removelast_last. exact H1.
    + rewrite noThinking_app, H1. reflexivity.
  - match goal with
    | |- Inv (match ?a with _ => _ end) => destruct a as [s1|] eqn:Ea
    end; [|apply catchBlock_Inv].
    assert (Hs1 : noThinking (chatHistory s1) = true
                  /\ orchestratorRef s1 = orchestratorRef s).
    { destruct (_ >? _)%Z in Ea.
      - destruct (Js.nth _ _) in Ea; inversion Ea; subst; simpl.
        split; [|reflexivity]. rewrite noThinking_app, H1. reflexivity.
      - inversion Ea; subst; auto. }
    destruct Hs1 as [Hh Ho].
    destruct (Js.nth (c_personas cl) _); [|apply catchBlock_Inv].
    apply invoke_Inv; simpl; auto.
    + rewrite removelast_last. exact Hh.
    + rewrite Ho. exact H2.
Qed.

Lemma handleStartMeeting_Inv s :
  Inv s -> suspended s = None -> Inv (handleStartMeeting s).
Proof.
  intros H Hs. unfold handleStartMeeting.
  destruct (isMeetingRunning s || negb (hasActiveKey (apiKeys s))).
  - destruct (negb (hasActiveKey (apiKeys s))); exact H.
  - apply settled_Inv; [exact Hs|reflexivity].
Qed.

Lemma step_Inv e s : e <> StartMeeting -> Inv s -> Inv (step e s).
Proof.
  intros He H. destruct e as [| | |t| |r|id]; simpl; try congruence.
  - (* stop *)
    unfold handleStopMeeting, Inv in *.
    destruct (abortControllerRef s) eqn:Ea; simpl; rewrite ?Ea;
      destruct (suspended s); intuition discriminate.
  - (* reset *)
    unfold handleResetMeeting, handleStopMeeting, Inv in *.
    destruct (abortControllerRef s) eqn:Ea; simpl; rewrite ?Ea;
      destruct (suspended s) as [f|]; try destruct (continuation f);
      intuition discriminate.
  - (* send *)
    unfold handleSendMessage.
    destruct (isMeetingRunning s) eqn:Er; simpl; [|exact H].
    destruct (isWaitingForAI s) eqn:Ew; simpl; [exact H|].
    unfold Inv in *. simpl. destruct H as [H1 H2].
    destruct (suspended s); [intuition congruence|].
    rewrite removelast_last. split; [exact H2|].
    rewrite noThinking_app, H2. reflexivity.
  - (* timer *)
    destruct (tickScheduled s) eqn:Et; [|exact H].
    unfold tickScheduled in Et.
    apply andb_prop in Et as [Et Et3]. apply andb_prop in Et as [Et1 Et2].
    apply negb_true_iff in Et2.
    assert (Hn : suspended s = None /\ noThinking (chatHistory s) = true).
    { unfold Inv in H. destruct (suspended s); [|tauto].
      intuition congruence. }
    destruct Hn as [Hs Hn].
    unfold runMeetingStep.
    destruct (orchestratorRef s) eqn:Eo; [|exact H].
    rewrite Et1. simpl.
    destruct (match abortControllerRef s with Some a => a | None => false end).
    + apply settled_Inv; simpl; [exact Hs|].
      rewrite noThinking_app, Hn. reflexivity.
    + destruct (agenda (meetingStateRef s)).
      * apply invoke_Inv; simpl; auto.
        -- apply noThinking_removelast, Hn.
        -- rewrite Eo. discriminate.
      * apply discuss_Inv; [exact Hn|rewrite Eo; discriminate].
  - (* reply *)
    unfold backendReply. destruct (suspended s) as [f|] eqn:Es; [|exact H].
    unfold Inv in H. rewrite Es in H.
    destruct H as [H1 [H2 [H3 [H4 H5]]]].
    destruct r as [t|msg].
    + unfold resolved. destruct (continuation f).
      * apply discuss_Inv; simpl; [|exact H4].
        rewrite noThinking_app, H2. reflexivity.
      * apply settled_Inv; simpl; [reflexivity|].
        rewrite noThinking_app, H1. reflexivity.
      * apply settled_Inv; simpl; [reflexivity|].
        rewrite noThinking_app, H2. reflexivity.
    + destruct (orchestratorRef s) as [m|]; [|congruence].
      apply settle_Inv; simpl; auto.
  - (* cooldown *)
    unfold cooldownExpires. destruct (existsb _ _); exact H.
Qed.

Lemma reachable_Inv ps topic ks s : reachable ps topic ks s -> Inv s.
Proof.
  induction 1 as [|s Hr IH Hs|e s Hr IH He].
  - apply settled_Inv; reflexivity.
  - apply handleStartMeeting_Inv; assumption.
  - apply step_Inv; assumption.
Qed.





(** ** Cancellation *)

Lemma keyLoop_aborted n : forall m,
  exists e, fst (keyLoop n true m) = Rejected e.
Proof.
  induction n as [|n IH]; intros m; simpl; destruct (getNextKey m) as [k m'].
  - eexists; reflexivity.
  - destruct k; [eexists; reflexivity|apply IH].
Qed.

Lemma catchBlock_stoppedClean cl e s : stoppedClean (catchBlock cl e s).
Proof. apply catchBlock_settled. Qed.






(** ** Starting a meeting *)

Lemma stoppedClean_Idle s : stoppedClean s -> Idle s.
Proof. intros [H1 [_ [_ H4]]]. split; intros; congruence. Qed.

Lemma invoke_Idle cl k call s :
  orchestratorRef s <> None ->
  isWaitingForAI s = true ->
  (isMeetingRunning s = false -> abortControllerRef s = Some true) ->
  Idle (invoke cl k call s).
Proof.
  intros Ho Hw Hr. unfold invoke.
  destruct (abortControllerRef s) as [aborted|] eqn:Ea;
    [|apply stoppedClean_Idle, catchBlock_stoppedClean].
  destruct (orchestratorRef s) as [m|]; [|congruence].
  unfold settle. destruct (fst (generateContentWithRetry aborted m)) eqn:Eg.
  - split; simpl; intros.
    + destruct aborted.
      * unfold generateContentWithRetry in Eg.
        destruct (getAvailableKeyCount m =? 0); [discriminate|].
        destruct (keyLoop_aborted (getAvailableKeyCount m) m) as [e He].
        congruence.
      * specialize (Hr H). congruence.
    + rewrite Ea. auto.
  - apply stoppedClean_Idle, catchBlock_stoppedClean.
Qed.

Lemma discuss_Idle cl s :
  orchestratorRef s <> None ->
  (isMeetingRunning s = false -> abortControllerRef s = Some true) ->
  Idle (discuss cl s).
Proof.
  intros Ho Hr. unfold discuss.
  destruct (_ >=? Z.of_nat (List.length (agenda _)))%Z.
  - apply invoke_Idle; simpl; auto.
  - match goal with
    | |- Idle (match ?a with _ => _ end) => destruct a as [s1|] eqn:Ea
    end; [|apply stoppedClean_Idle, catchBlock_stoppedClean].
    assert (Hs1 : abortControllerRef s1 = abortControllerRef s
                  /\ orchestratorRef s1 = orchestratorRef s
                  /\ isMeetingRunning s1 = isMeetingRunning s).
    { destruct (_ >? _)%Z in Ea.
      - destruct (Js.nth _ _) in Ea; inversion Ea; subst; simpl; auto.
      - inversion Ea; subst; auto. }
    destruct Hs1 as [Hh [Hp Hq]].
    destruct (Js.nth (c_personas cl) _);
      [|apply stoppedClean_Idle, catchBlock_stoppedClean].
    apply invoke_Idle; simpl;
      [congruence|reflexivity|intros; rewrite Hh; apply Hr; congruence].
Qed.

Lemma step_Idle e s : e <> StartMeeting -> Inv s -> Idle s -> Idle (step e s).
Proof.
  intros He HI HId. pose proof HId as [H1 H2]. destruct e as [| | |t| |r|id]; simpl; try congruence.
  - unfold handleStopMeeting. destruct (abortControllerRef s) eqn:Ea.
    + split; simpl; auto.
    + split; simpl; auto. intros Hs _. unfold Inv in HI.
      destruct (suspended s); [|congruence]. rewrite Ea in HI. tauto.
  - unfold handleResetMeeting, handleStopMeeting.
    destruct (abortControllerRef s) eqn:Ea.
    + split; simpl; auto.
    + split; simpl; auto. intros Hs _. unfold Inv in HI.
      destruct (suspended s); [|congruence]. rewrite Ea in HI. tauto.
  - unfold handleSendMessage. destruct (_ || _); [exact HId|split; simpl; auto].
  - destruct (tickScheduled s) eqn:Et; [|exact HId].
    unfold tickScheduled in Et.
    apply andb_prop in Et as [Et _]. apply andb_prop in Et as [Et1 _].
    unfold runMeetingStep.
    destruct (orchestratorRef s) eqn:Eo; [|exact HId].
    rewrite Et1. simpl.
    destruct (abortControllerRef s) as [[|]|] eqn:Ea.
    + split; simpl; auto.
    + destruct (agenda (meetingStateRef s)).
      * apply invoke_Idle; simpl; congruence.
      * apply discuss_Idle; simpl; congruence.
    + destruct (agenda (meetingStateRef s)).
      * apply invoke_Idle; simpl; congruence.
      * apply discuss_Idle; simpl; congruence.
  - unfold backendReply. destruct (suspended s) as [f|] eqn:Es; [|exact HId].
    assert (Hs : Some f <> None) by discriminate.
    unfold Inv in HI. rewrite Es in HI. destruct HI as [_ [_ [_ [Ho Hw]]]].
    destruct r as [t|msg].
    + unfold resolved. destruct (continuation f).
      * apply discuss_Idle; simpl; auto.
      * split; simpl; auto; congruence.
      * split; simpl; auto; congruence.
    + destruct (orchestratorRef s) as [m|]; [|congruence].
      unfold settle.
      destruct (fst (attemptFailed _ _ _ _ _)) eqn:Eg.
      * split; simpl; auto.
      * apply stoppedClean_Idle, catchBlock_stoppedClean.
  - unfold cooldownExpires. destruct (existsb _ _); [split; simpl; auto|exact HId].
Qed.

Lemma reachable_Idle ps topic ks s : reachable ps topic ks s -> Idle s.
Proof.
  induction 1 as [|s Hr IH Hs|e s Hr IH He].
  - split; simpl; congruence.
  - destruct IH as [H1 H2]. unfold handleStartMeeting.
    destruct (isMeetingRunning s || negb (hasActiveKey (apiKeys s))).
    + destruct (negb (hasActiveKey (apiKeys s))); split; simpl; auto.
    + split; simpl; congruence.
  - apply step_Idle; [assumption|eapply reachable_Inv; eassumption|assumption].
Qed.

(** C3, as stated, fails for the start handler.  With an empty persona list
    and a blank topic but one active key the handler begins a meeting: the
    state is reset, the opening notice is emitted and a step is scheduled.
    And while a meeting runs, a start with personas, topic and an active
    key resets nothing. *)
Lemma start_handler_checks_keys_only :
  (let s := handleStartMeeting (initialApp [] "   " [Ex.keyA]) in
   isMeetingRunning s = true
   /\ chatHistory s = [openingNotice]
   /\ tickScheduled s = true)
  /\ (let s := run [StartMeeting; TimerFires; Ex.ok "Pricing"; Ex.ok "Hello"]
                 Ex.app in
      canStartMeeting s = true
      /\ List.length (chatHistory s) = 3
      /\ handleStartMeeting s = s).
Proof. vm_compute. repeat split. Qed.

Lemma canStartMeeting_spec s :
  canStartMeeting s = true
  <-> personas s <> [] /\ onlyWhitespace (meetingTopic s) = false
      /\ hasActiveKey (apiKeys s) = true.
Proof.
  unfold canStartMeeting. rewrite !andb_true_iff, !Nat.ltb_lt.
  assert (Ht : 0 < String.length (Js.trim (meetingTopic s))
               <-> onlyWhitespace (meetingTopic s) = false).
  { rewrite <- not_true_iff_false, <- trim_empty.
    destruct (Js.trim (meetingTopic s)); simpl; split; intros; try lia; congruence. }
  rewrite Ht. destruct (personas s); simpl; intuition (try lia; congruence).
Qed.

(** C3, amended.  The start handler rejects a start exactly when a meeting
    is already running or no key has status [active]: then nothing changes
    but the error message (set when no key is active).  Otherwise it resets
    the meeting state, creates a fresh signal and a pool from the current
    keys, emits the opening notice and marks the meeting running, and a
    first step is scheduled unless the controller is waiting, which a
    controller that is not running never is.  An empty persona list or a
    blank topic is not rejected by the handler; it disables the Start
    control, so that a click changes nothing. *)
Theorem start_is_gated (s : App) :
  (isMeetingRunning s = true \/ hasActiveKey (apiKeys s) = false ->
   handleStartMeeting s
   = if hasActiveKey (apiKeys s) then s else setError (Some noActiveKeyMessage) s)
  /\ (isMeetingRunning s = false -> hasActiveKey (apiKeys s) = true ->
      let s' := handleStartMeeting s in
      meetingStateRef s' = freshMeetingState
      /\ chatHistory s' = [openingNotice]
      /\ isMeetingRunning s' = true
      /\ abortControllerRef s' = Some false
      /\ orchestratorRef s' = Some (newApiKeyManager (apiKeys s))
      /\ error s' = None
      /\ tickScheduled s' = negb (isWaitingForAI s))
  /\ (forall ps topic ks,
         reachable ps topic ks s -> isMeetingRunning s = false ->
         isWaitingForAI s = false)
  /\ (personas s = [] \/ onlyWhitespace (meetingTopic s) = true
      \/ hasActiveKey (apiKeys s) = false ->
      clickStart s = s).
Proof.
  split; [|split; [|split]].
  - unfold handleStartMeeting. intros [H|H]; rewrite H; simpl.
    + destruct (hasActiveKey (apiKeys s)); reflexivity.
    + rewrite orb_true_r. reflexivity.
  - intros Hr Hk s'. subst s'. unfold handleStartMeeting, tickScheduled.
    rewrite Hr, Hk. simpl. repeat split. rewrite andb_true_r. reflexivity.
  - intros ps topic ks Hreach. apply reachable_Idle in Hreach. apply Hreach.
  - intros H. unfold clickStart.
    destruct (isMeetingRunning s); [reflexivity|].
    destruct (canStartMeeting s) eqn:E; [|reflexivity].
    apply canStartMeeting_spec in E. destruct E as [E1 [E2 E3]].
    destruct H as [H|[H|H]]; congruence.
Qed.

Lemma start_is_gated_witness :
  clickStart (initialApp [] "Launch plan" [Ex.keyA])
  = initialApp [] "Launch plan" [Ex.keyA]
  /\ chatHistory (handleStartMeeting Ex.app) = [openingNotice]
  /\ tickScheduled (handleStartMeeting Ex.app) = true.
Proof.
  split.
  - apply (proj2 (proj2 (proj2 (start_is_gated
                                  (initialApp [] "Launch plan" [Ex.keyA]))))).
    left. reflexivity.
  - destruct (proj1 (proj2 (start_is_gated Ex.app)) eq_refl eq_refl)
      as [_ [H2 [_ [_ [_ [_ H7]]]]]].
    split; [exact H2|exact H7].
Defined.

(** ** Interjections *)

Local Close Scope string_scope.









Local Open Scope string_scope.
Local Open Scope nat_scope.




Lemma interventionPrompt_spec t :
  t <> EmptyString ->
  interventionPrompt (Some t)
  = (Js.nl ++ "**IMPORTANT: The human facilitator has just interjected with the following instruction or question. Make sure your response addresses it directly:** "
     ++ Js.dq ++ t ++ Js.dq ++ Js.nl)%string
  /\ interventionPrompt None = EmptyString.
Proof.
  intros H. split; [|reflexivity]. unfold interventionPrompt, Js.truthy.
  apply String.eqb_neq in H. rewrite H. reflexivity.
Qed.



(** ** A whole meeting *)

Local Close Scope string_scope.

Lemma last_noThinking H :
  noThinking H = true -> List.last (map isThinking H) false = false.
Proof.
  intros Hn. destruct (exists_last_or H) as [E|[H' [x E]]]; subst H.
  - reflexivity.
  - rewrite map_app. simpl. rewrite last_last.
    rewrite noThinking_app in Hn. apply andb_prop in Hn as [_ Hn].
    simpl in Hn. rewrite andb_true_r in Hn. apply negb_true_iff in Hn. exact Hn.
Qed.

Lemma invoke_ok cl k call s m :
  abortControllerRef s = Some false ->
  orchestratorRef s = Some m ->
  wf m ->
  invoke cl k call s
  = setSuspended
      (Some (mkInFlight cl k (valueAt (keys m) (currentIndex m))
               (List.length (keys m) - 1)))
      (setOrchestratorRef
         (Some (mkManager (keys m)
                  ((currentIndex m + 1) mod List.length (keys m))))
         (setCallLog (callLog s ++ [call]) s)).
Proof.
  intros Ha Ho Hwf. unfold invoke. rewrite Ha, Ho.
  rewrite (first_attempt m Hwf). reflexivity.
Qed.

Lemma nth_of_nat {A} (l : list A) n : Js.nth l (Z.of_nat n) = nth_error l n.
Proof.
  unfold Js.nth. destruct (Z.ltb_spec (Z.of_nat n) 0); [lia|].
  rewrite Nat2Z.id. reflexivity.
Qed.

Lemma geb_false x y : (x < y)%Z -> (x >=? y)%Z = false.
Proof. intros H. rewrite Z.geb_leb. apply Z.leb_gt. exact H. Qed.

Lemma geb_true x y : (y <= x)%Z -> (x >=? y)%Z = true.
Proof. intros H. rewrite Z.geb_leb. apply Z.leb_le. exact H. Qed.

Section Tick.
Variables (ps : list Persona.t) (usable : list ApiKey.t) (items : list string).

Lemma tick_same_topic a p H s q t :
  MidState ps usable items a p H s ->
  nth_error ps (S p) = Some q ->
  a < List.length items ->
  MidState ps usable items a (S p) (H ++ [personaTurn q t])
    (serve [Success t] s).
Proof.
  intros [base [i [log [Hi [Hn Hs]]]]] Hq Ha. subst s.
  assert (Hp : S p < List.length ps)
    by (apply nth_error_Some; rewrite Hq; discriminate).
  exists base, ((i + 1) mod List.length usable). eexists.
  split; [apply Nat.mod_upper_bound; lia|].
  split; [rewrite noThinking_app, Hn; reflexivity|].
  unfold serve, midApp. cbn [suspended step].
  unfold tickScheduled. cbn [isMeetingRunning isWaitingForAI chatHistory].
  rewrite (last_noThinking H Hn). cbn [negb andb].
  unfold runMeetingStep.
  cbn [orchestratorRef isMeetingRunning negb abortControllerRef meetingStateRef agenda].
  destruct items as [|it0 items'] eqn:Ei; [simpl in Ha; lia|]. rewrite <- Ei in *.
  unfold discuss.
  cbn [meetingStateRef closureOf c_personas currentSpeakerIndex
       currentAgendaIndex agenda personas].
  rewrite (geb_false (Z.of_nat p + 1)) by lia.
  rewrite (geb_false (Z.of_nat a)) by lia.
  rewrite Z.gtb_ltb, Z.ltb_irrefl.
  replace (Z.of_nat p + 1)%Z with (Z.of_nat (S p)) by lia.
  rewrite !nth_of_nat, Hq.
  erewrite invoke_ok; [|reflexivity|reflexivity|exact Hi].
  unfold backendReply. cbn [suspended]. unfold resolved. cbn [continuation].
  cbn. rewrite removelast_last. reflexivity.
Qed.

Lemma tick_next_topic a p H s q it t :
  MidState ps usable items a p H s ->
  S p = List.length ps ->
  nth_error ps 0 = Some q ->
  nth_error items (S a) = Some it ->
  MidState ps usable items (S a) 0 (H ++ [topicNotice it; personaTurn q t])
    (serve [Success t] s).
Proof.
  intros [base [i [log [Hi [Hn Hs]]]]] Hp Hq Hit. subst s.
  assert (Ha : S a < List.length items)
    by (apply nth_error_Some; rewrite Hit; discriminate).
  exists base, ((i + 1) mod List.length usable). eexists.
  split; [apply Nat.mod_upper_bound; lia|].
  split; [rewrite noThinking_app, Hn; reflexivity|].
  unfold serve, midApp. cbn [suspended step].
  unfold tickScheduled. cbn [isMeetingRunning isWaitingForAI chatHistory].
  rewrite (last_noThinking H Hn). cbn [negb andb].
  unfold runMeetingStep.
  cbn [orchestratorRef isMeetingRunning negb abortControllerRef meetingStateRef agenda].
  destruct items as [|it0 items'] eqn:Ei; [simpl in Ha; lia|]. rewrite <- Ei in *.
  unfold discuss.
  cbn [meetingStateRef closureOf c_personas currentSpeakerIndex
       currentAgendaIndex agenda personas].
  rewrite (geb_true (Z.of_nat p + 1)) by lia.
  rewrite (geb_false (Z.of_nat a + 1)) by lia.
  replace (Z.of_nat a + 1 >? Z.of_nat a)%Z with true
    by (symmetry; rewrite Z.gtb_ltb; apply Z.ltb_lt; lia).
  replace (Z.of_nat a + 1)%Z with (Z.of_nat (S a)) by lia.
  change 0%Z with (Z.of_nat 0).
  rewrite !nth_of_nat, Hit, Hq.
  erewrite invoke_ok; [|reflexivity|reflexivity|exact Hi].
  unfold backendReply. cbn [suspended]. unfold resolved. cbn [continuation].
  cbn. rewrite <- app_assoc. cbn.
  replace (H ++ [topicNotice it; thinkingMessageOf q])%list
    with ((H ++ [topicNotice it]) ++ [thinkingMessageOf q])%list
    by (rewrite <- app_assoc; reflexivity).
  rewrite removelast_last, <- app_assoc. reflexivity.
Qed.

Lemma tick_summary a p H s sm :
  MidState ps usable items a p H s ->
  S p = List.length ps ->
  S a = List.length items ->
  chatHistory (serve [Success sm] s)
  = (H ++ [completeNotice; summaryMessage sm; closingNotice])%list
  /\ isMeetingRunning (serve [Success sm] s) = false
  /\ suspended (serve [Success sm] s) = None.
Proof.
  intros [base [i [log [Hi [Hn Hs]]]]] Hp Ha. subst s.
  unfold serve, midApp. cbn [suspended step].
  unfold tickScheduled. cbn [isMeetingRunning isWaitingForAI chatHistory].
  rewrite (last_noThinking H Hn). cbn [negb andb].
  unfold runMeetingStep.
  cbn [orchestratorRef isMeetingRunning negb abortControllerRef meetingStateRef agenda].
  destruct items as [|it0 items'] eqn:Ei; [simpl in Ha; lia|]. rewrite <- Ei in *.
  unfold discuss.
  cbn [meetingStateRef closureOf c_personas currentSpeakerIndex
       currentAgendaIndex agenda personas].
  rewrite (geb_true (Z.of_nat p + 1)) by lia.
  rewrite (geb_true (Z.of_nat a + 1)) by lia.
  erewrite invoke_ok; [|reflexivity|reflexivity|exact Hi].
  unfold backendReply. cbn [suspended]. unfold resolved. cbn [continuation].
  cbn. rewrite <- app_assoc. repeat split.
Qed.
End Tick.

Lemma serve_app l1 : forall l2 s, serve (l1 ++ l2) s = serve l2 (serve l1 s).
Proof.
  induction l1 as [|r l1 IH]; intros l2 s; [reflexivity|].
  simpl. apply IH.
Qed.

Lemma serve_cons r rs s : serve (r :: rs) s = serve rs (serve [r] s).
Proof. reflexivity. Qed.

Lemma skipn_cons {A} n : forall (l : list A) x r,
  skipn n l = x :: r -> nth_error l n = Some x /\ skipn (S n) l = r.
Proof.
  induction n as [|n IH]; intros l x r H.
  - destruct l; [discriminate|]. simpl in *. inversion H; auto.
  - destruct l; [discriminate|]. simpl in H. apply IH in H. exact H.
Qed.

Lemma usable_hasActiveKey ks :
  filter usableAtCreation ks <> [] -> hasActiveKey ks = true.
Proof.
  intros H. destruct (filter usableAtCreation ks) as [|k l] eqn:E; [congruence|].
  assert (Hin : In k (filter usableAtCreation ks)) by (rewrite E; left; reflexivity).
  apply filter_In in Hin as [Hin Hu]. unfold hasActiveKey.
  apply existsb_exists. exists k. split; [exact Hin|].
  unfold usableAtCreation in Hu. apply andb_prop in Hu. tauto.
Qed.

Section Meeting.
Variables (ps : list Persona.t) (usable : list ApiKey.t) (items : list string).
Variable txt : nat -> nat -> string.

Lemma topic_rest a : forall post p H s,
  MidState ps usable items a p H s ->
  a < List.length items ->
  skipn (S p) ps = post ->
  MidState ps usable items a (p + List.length post)
    (H ++ turnsOf (txt a) (S p) post)
    (serve (turnReplies (txt a) (S p) post) s).
Proof.
  induction post as [|q post IH]; intros p H s Hm Ha Hps.
  - simpl. rewrite Nat.add_0_r, app_nil_r. exact Hm.
  - apply skipn_cons in Hps as [Hq Hps].
    pose proof (tick_same_topic ps usable items a p H s q (txt a (S p)) Hm Hq Ha)
      as Hm'.
    specialize (IH (S p) _ _ Hm' Ha Hps).
    simpl turnReplies. rewrite serve_cons. simpl turnsOf.
    replace (p + List.length (q :: post)) with (S p + List.length post)
      by (simpl; lia).
    replace (H ++ personaTurn q (txt a (S p)) :: turnsOf (txt a) (S (S p)) post)
      with ((H ++ [personaTurn q (txt a (S p))])
            ++ turnsOf (txt a) (S (S p)) post)
      by (rewrite <- app_assoc; reflexivity).
    exact IH.
Qed.

Lemma topics_rest q0 ps' :
  ps = q0 :: ps' ->
  forall ipost a H s,
    MidState ps usable items a (List.length ps') H s ->
    skipn (S a) items = ipost ->
    MidState ps usable items (a + List.length ipost) (List.length ps')
      (H ++ blocksOf ps txt (S a) ipost)
      (serve (blockReplies ps txt (S a) ipost) s).
Proof.
  intros Eps. induction ipost as [|it ipost IH]; intros a H s Hm Hit.
  - simpl. rewrite Nat.add_0_r, app_nil_r. exact Hm.
  - apply skipn_cons in Hit as [Hit Hrest].
    assert (Ha : S a < List.length items)
      by (apply nth_error_Some; rewrite Hit; discriminate).
    assert (Hp : S (List.length ps') = List.length ps) by (rewrite Eps; reflexivity).
    assert (Hq : nth_error ps 0 = Some q0) by (rewrite Eps; reflexivity).
    pose proof (tick_next_topic ps usable items a _ H s q0 it (txt (S a) 0)
                  Hm Hp Hq Hit) as Hm1.
    assert (Hsk : skipn 1 ps = ps') by (rewrite Eps; reflexivity).
    pose proof (topic_rest (S a) ps' 0 _ _ Hm1 Ha Hsk) as Hm2.
    specialize (IH (S a) _ _ Hm2 Hrest).
    assert (Er : turnReplies (txt (S a)) 0 ps
                 = Success (txt (S a) 0) :: turnReplies (txt (S a)) 1 ps')
      by (rewrite Eps; reflexivity).
    assert (Et : turnsOf (txt (S a)) 0 ps
                 = personaTurn q0 (txt (S a) 0) :: turnsOf (txt (S a)) 1 ps')
      by (rewrite Eps; reflexivity).
    simpl blockReplies. rewrite Er, <- app_comm_cons, serve_cons, serve_app.
    replace (a + List.length (it :: ipost)) with (S a + List.length ipost)
      by (simpl; lia).
    simpl blocksOf. rewrite Et.
    match goal with
    | |- MidState _ _ _ _ _ ?X _ =>
        replace X
          with (((H ++ [topicNotice it; personaTurn q0 (txt (S a) 0)])
                 ++ turnsOf (txt (S a)) 1 ps')
                ++ blocksOf ps txt (S (S a)) ipost)
          by (rewrite <- !app_assoc; reflexivity)
    end.
    exact IH.
Qed.
End Meeting.

Lemma start_then_agenda s0 agendaText :
  isMeetingRunning s0 = false -> isWaitingForAI s0 = false ->
  suspended s0 = None ->
  filter usableAtCreation (apiKeys s0) <> [] ->
  serve [Success agendaText] (handleStartMeeting s0)
  = discuss
      (mkClosure (meetingTopic s0) (personas s0) [openingNotice] (apiKeys s0))
      (mkApp (personas s0) (meetingTopic s0) (apiKeys s0)
         [openingNotice; agendaNotice (agendaOfResponse agendaText)]
         true false None (Some false)
         (Some (mkManager (filter usableAtCreation (apiKeys s0))
                  (1 mod List.length (filter usableAtCreation (apiKeys s0)))))
         (mkMeetingState (agendaOfResponse agendaText) 0 (-1) None) None
         (cooldownTimers s0) (callLog s0 ++ [GenerateAgenda (meetingTopic s0)])).
Proof.
  intros Hr Hw Hs Hk. pose proof (usable_hasActiveKey _ Hk) as Hact.
  pose proof (newApiKeyManager_wf _ Hk) as Hwf.
  destruct s0 as [ps topic ks h run wait err ctl orch st susp timers log].
  simpl in *. subst run wait susp.
  unfold handleStartMeeting. cbn [isMeetingRunning apiKeys orb]. rewrite Hact.
  cbn [negb]. unfold serve, step, tickScheduled, runMeetingStep.
  cbn -[invoke discuss Nat.modulo newApiKeyManager].
  erewrite invoke_ok; [|reflexivity|reflexivity|exact Hwf].
  unfold backendReply. cbn [suspended]. unfold resolved. cbn [continuation].
  cbn -[discuss Nat.modulo]. reflexivity.
Qed.

Section Whole.
Variables (s0 : App) (agendaText summary : string).
Variable txt : nat -> nat -> string.
Hypothesis not_running : isMeetingRunning s0 = false.
Hypothesis not_waiting : isWaitingForAI s0 = false.
Hypothesis nothing_pending : suspended s0 = None.
Hypothesis some_usable : filter usableAtCreation (apiKeys s0) <> [].

Let ps := personas s0.
Let usable := filter usableAtCreation (apiKeys s0).
Let items := agendaOfResponse agendaText.

Lemma first_turn q0 ps' it0 items' :
  ps = q0 :: ps' -> items = it0 :: items' ->
  MidState ps usable items 0 0
    [openingNotice; agendaNotice items; personaTurn q0 (txt 0 0)]
    (serve [Success agendaText; Success (txt 0 0)] (handleStartMeeting s0)).
Proof.
  intros Eps Eit. rewrite serve_cons.
  rewrite (start_then_agenda s0 agendaText not_running not_waiting
             nothing_pending some_usable).
  fold ps usable items.
  assert (Hc : 0 < List.length usable).
  { unfold usable. destruct (filter usableAtCreation (apiKeys s0));
      [contradiction some_usable; reflexivity|simpl; lia]. }
  exists (setError None s0), ((1 mod List.length usable + 1) mod List.length usable).
  eexists. split; [apply Nat.mod_upper_bound; lia|]. split; [reflexivity|].
  unfold discuss.
  cbn [meetingStateRef c_personas currentSpeakerIndex currentAgendaIndex agenda].
  rewrite Eps, Eit.
  cbn -[invoke Nat.modulo].
  erewrite invoke_ok;
    [|reflexivity|reflexivity|
     unfold wf; cbn; apply Nat.mod_upper_bound; fold usable; lia].
  unfold serve. cbn [suspended step]. unfold backendReply. cbn [suspended].
  unfold resolved. cbn [continuation]. cbn -[Nat.modulo].
  unfold midApp. cbn -[Nat.modulo]. rewrite <- Eps, <- Eit. reflexivity.
Qed.

Lemma empty_agenda_run :
  items = [] ->
  let s := serve [Success agendaText; Success summary] (handleStartMeeting s0) in
  chatHistory s
  = [openingNotice; agendaNotice []; completeNotice; summaryMessage summary;
     closingNotice]
  /\ isMeetingRunning s = false /\ suspended s = None.
Proof.
  intros Eit s. subst s. rewrite serve_cons.
  rewrite (start_then_agenda s0 agendaText not_running not_waiting
             nothing_pending some_usable).
  fold ps usable items. rewrite Eit.
  assert (Hc : 0 < List.length usable).
  { unfold usable. destruct (filter usableAtCreation (apiKeys s0));
      [contradiction some_usable; reflexivity|simpl; lia]. }
  unfold discuss.
  cbn [meetingStateRef c_personas currentSpeakerIndex currentAgendaIndex agenda
       List.length].
  replace ((if (-1 + 1 >=? Z.of_nat (List.length ps))%Z then (0 + 1)%Z else 0%Z)
           >=? Z.of_nat 0)%Z with true
    by (destruct (-1 + 1 >=? Z.of_nat (List.length ps))%Z; reflexivity).
  erewrite invoke_ok;
    [|reflexivity|reflexivity|
     unfold wf; cbn; apply Nat.mod_upper_bound; fold usable; lia].
  unfold serve. cbn [suspended step]. unfold backendReply. cbn [suspended].
  unfold resolved. cbn [continuation]. cbn -[Nat.modulo]. repeat split.
Qed.

Lemma clean_meeting :
  ps <> [] ->
  let s := serve (meetingReplies ps agendaText txt summary)
             (handleStartMeeting s0) in
  chatHistory s = codeTranscript ps items txt summary
  /\ isMeetingRunning s = false /\ suspended s = None.
Proof.
  intros Hps s. subst s. unfold meetingReplies, codeTranscript. fold items.
  destruct items as [|it0 items'] eqn:Eit.
  - apply empty_agenda_run. exact Eit.
  - destruct ps as [|q0 ps'] eqn:Eps; [congruence|].
    rewrite <- Eps, <- Eit.
    assert (Er : blockReplies ps txt 0 items
                 = Success (txt 0 0)
                   :: turnReplies (txt 0) 1 ps' ++ blockReplies ps txt 1 items')
      by (rewrite Eit, Eps; reflexivity).
    assert (Eb : blocksOf ps txt 0 items
                 = personaTurn q0 (txt 0 0)
                   :: turnsOf (txt 0) 1 ps' ++ blocksOf ps txt 1 items')
      by (rewrite Eit, Eps; reflexivity).
    rewrite Er, Eb.
    pose proof (first_turn q0 ps' it0 items' Eps Eit) as M0.
    assert (Ha : 0 < List.length items) by (rewrite Eit; simpl; lia).
    assert (Hsk : skipn 1 ps = ps') by (rewrite Eps; reflexivity).
    pose proof (topic_rest ps usable items txt 0 ps' 0 _ _ M0 Ha Hsk) as M1.
    simpl Nat.add in M1.
    assert (Hsi : skipn 1 items = items') by (rewrite Eit; reflexivity).
    pose proof (topics_rest ps usable items txt q0 ps' Eps items' 0 _ _ M1 Hsi)
      as M2.
    simpl Nat.add in M2.
    assert (Hp : S (List.length ps') = List.length ps) by (rewrite Eps; reflexivity).
    assert (Hi : S (List.length items') = List.length items)
      by (rewrite Eit; reflexivity).
    pose proof (tick_summary ps usable items _ _ _ _ summary M2 Hp Hi)
      as [R1 [R2 R3]].
    replace (Success agendaText
             :: (Success (txt 0 0)
                 :: turnReplies (txt 0) 1 ps' ++ blockReplies ps txt 1 items')
                ++ [Success summary])
      with ([Success agendaText; Success (txt 0 0)]
            ++ turnReplies (txt 0) 1 ps'
            ++ blockReplies ps txt 1 items' ++ [Success summary])%list
      by (simpl; rewrite <- app_assoc; reflexivity).
    rewrite !serve_app. rewrite R1, R2, R3.
    split; [|split; reflexivity].
    simpl. rewrite <- !app_assoc. reflexivity.
Qed.
End Whole.

Lemma turnsOf_counts f ps : forall p,
  List.length (filter isPersonaTurn (turnsOf f p ps)) = List.length ps
  /\ filter isOrchestrator (turnsOf f p ps) = [].
Proof.
  induction ps as [|q ps IH]; intros p; simpl; [auto|].
  destruct (IH (S p)) as [H1 H2]. rewrite H1, H2. auto.
Qed.

Lemma blocksOf_counts ps txt items : forall a,
  List.length (filter isPersonaTurn (blocksOf ps txt a items))
  = List.length ps * List.length items
  /\ List.length (filter isOrchestrator (blocksOf ps txt a items))
     = match a with
       | O => List.length items - 1
       | S _ => List.length items
       end.
Proof.
  induction items as [|it items IH]; intros a.
  - simpl. rewrite Nat.mul_0_r. destruct a; auto.
  - simpl blocksOf. rewrite !filter_app, !length_app.
    destruct (turnsOf_counts (txt a) ps 0) as [T1 T2]. rewrite T1, T2.
    destruct (IH (S a)) as [I1 I2]. rewrite I1, I2. simpl List.length.
    rewrite Nat.mul_succ_r. destruct a; simpl; split; lia.
Qed.

Lemma codeTranscript_counts ps items txt summary :
  List.length (filter isPersonaTurn (codeTranscript ps items txt summary))
  = List.length ps * List.length items
  /\ List.length (filter isOrchestrator (codeTranscript ps items txt summary))
     = 5 + (List.length items - 1).
Proof.
  unfold codeTranscript. rewrite !filter_app, !length_app.
  destruct (blocksOf_counts ps txt items 0) as [B1 B2]. rewrite B1, B2.
  simpl. split; lia.
Qed.

Local Open Scope string_scope.
Local Open Scope nat_scope.

(** C1, as stated, fails: with personas Alice and Bob and the agenda
    Pricing, Timeline, the transcript of the code has no notice for the
    first agenda item (its third entry is the turn of Alice), so it has one
    notice of an agenda item, not two, and six entries of the orchestrator,
    not seven; it is not the sequence of the claim. *)
Lemma first_topic_is_not_announced :
  let s := serve (meetingReplies [Ex.alice; Ex.bob] Ex.agendaText Ex.txt "Summary")
             (handleStartMeeting Ex.app) in
  agendaOfResponse Ex.agendaText = ["Pricing"; "Timeline"]
  /\ chatHistory s
     = [openingNotice; agendaNotice ["Pricing"; "Timeline"];
        personaTurn Ex.alice "a1"; personaTurn Ex.bob "b1";
        topicNotice "Timeline";
        personaTurn Ex.alice "a2"; personaTurn Ex.bob "b2";
        completeNotice; summaryMessage "Summary"; closingNotice]
  /\ List.length (filter isOrchestrator (chatHistory s)) = 6
  /\ chatHistory s
     <> specTranscript [Ex.alice; Ex.bob] ["Pricing"; "Timeline"] Ex.txt "Summary".
Proof.
  split; [reflexivity|]. split; [reflexivity|]. split; [reflexivity|].
  intros H. apply (f_equal (@List.length ChatMessage)) in H.
  vm_compute in H. discriminate H.
Qed.

(** C1, amended: a meeting started on a controller that is not running,
    with a persona list of length [n] (not empty) and at least one usable
    key, in which every backend call succeeds and neither an interjection
    nor a stop occurs, ends with the meeting not running and the
    transcript: opening notice, agenda listing, the [n] persona turns of the
    first agenda item, then for every later agenda item its notice followed
    by the [n] persona turns, then the discussion-complete notice, the
    summary and the closing notice.  For an agenda of length [m] it has
    [n * m] persona turns and [5 + (m - 1)] entries of the orchestrator:
    [m - 1] notices of agenda items (none when [m = 0]) and the five
    others. *)
Theorem clean_meeting_transcript (s0 : App) (agendaText summary : string)
    (txt : nat -> nat -> string) :
  isMeetingRunning s0 = false ->
  isWaitingForAI s0 = false ->
  suspended s0 = None ->
  filter usableAtCreation (apiKeys s0) <> [] ->
  personas s0 <> [] ->
  let items := agendaOfResponse agendaText in
  let s := serve (meetingReplies (personas s0) agendaText txt summary)
             (handleStartMeeting s0) in
  chatHistory s = codeTranscript (personas s0) items txt summary
  /\ isMeetingRunning s = false
  /\ suspended s = None
  /\ List.length (filter isPersonaTurn (chatHistory s))
     = List.length (personas s0) * List.length items
  /\ List.length (filter isOrchestrator (chatHistory s))
     = 5 + (List.length items - 1).
Proof.
  intros Hr Hw Hs Hk Hp items s.
  destruct (clean_meeting s0 agendaText summary txt Hr Hw Hs Hk Hp)
    as [H1 [H2 H3]].
  fold items in H1. fold s in H1, H2, H3.
  split; [exact H1|]. split; [exact H2|]. split; [exact H3|].
  rewrite H1. apply codeTranscript_counts.
Qed.

Lemma clean_meeting_transcript_witness :
  let s := serve (meetingReplies [Ex.alice; Ex.bob] Ex.agendaText Ex.txt "Summary")
             (handleStartMeeting Ex.app) in
  chatHistory s
  = codeTranscript [Ex.alice; Ex.bob] (agendaOfResponse Ex.agendaText) Ex.txt
      "Summary"
  /\ isMeetingRunning s = false
  /\ suspended s = None
  /\ List.length (filter isPersonaTurn (chatHistory s)) = 2 * 2
  /\ List.length (filter isOrchestrator (chatHistory s)) = 5 + (2 - 1).
Proof.
  apply (clean_meeting_transcript Ex.app Ex.agendaText "Summary" Ex.txt
           eq_refl eq_refl eq_refl).
  - discriminate.
  - discriminate.
Defined.

(** * Further properties *)

(** ** Trimming, splitting and joining *)

Lemma trimEnd_idem s : Js.trimEnd (Js.trimEnd s) = Js.trimEnd s.
Proof.
  induction s as [|c s IH]; [reflexivity|]. simpl.
  destruct (Js.trimEnd s) as [|d r] eqn:E.
  - destruct (Js.isWhitespace c) eqn:W; simpl; [reflexivity|]. rewrite W. reflexivity.
  - simpl. simpl in IH. destruct (Js.trimEnd r) eqn:E2.
    + destruct (Js.isWhitespace d); [discriminate|]. inversion IH. reflexivity.
    + inversion IH. reflexivity.
Qed.

Lemma trimStart_startsClean s : startsClean (Js.trimStart s).
Proof.
  induction s as [|c s IH]; simpl; [exact I|].
  destruct (Js.isWhitespace c) eqn:W; [exact IH|]. simpl. exact W.
Qed.

Lemma trimStart_clean s : startsClean s -> Js.trimStart s = s.
Proof. destruct s; simpl; [reflexivity|]. intros H. rewrite H. reflexivity. Qed.

Lemma trimEnd_startsClean s : startsClean s -> startsClean (Js.trimEnd s).
Proof.
  destruct s as [|c s]; simpl; [auto|]. intros H.
  destruct (Js.trimEnd s); [rewrite H|]; simpl; exact H.
Qed.

Lemma trim_idempotent s : Js.trim (Js.trim s) = Js.trim s.
Proof.
  unfold Js.trim.
  rewrite (trimStart_clean (Js.trimEnd (Js.trimStart s))).
  - apply trimEnd_idem.
  - apply trimEnd_startsClean, trimStart_startsClean.
Qed.

Lemma split_nonempty sep s : Js.split sep s <> [].
Proof.
  induction s as [|c s IH]; simpl; [discriminate|].
  destruct (Ascii.eqb c sep); [discriminate|].
  destruct (Js.split sep s); discriminate.
Qed.

Lemma join_split sep s :
  Js.join (String sep EmptyString) (Js.split sep s) = s.
Proof.
  unfold Js.join. induction s as [|c s IH]; [reflexivity|]. simpl.
  destruct (Ascii.eqb_spec c sep) as [E|E].
  - subst c. pose proof (split_nonempty sep s) as Hne.
    destruct (Js.split sep s) as [|h t] eqn:Es; [congruence|].
    simpl. simpl in IH. rewrite IH. reflexivity.
  - pose proof (split_nonempty sep s) as Hne.
    destruct (Js.split sep s) as [|h t] eqn:Es; [congruence|].
    simpl in *. destruct t; simpl in *; rewrite IH; reflexivity.
Qed.

Lemma split_no_sep sep s : Forall (fun l => hasChar sep l = false) (Js.split sep s).
Proof.
  induction s as [|c s IH]; simpl; [repeat constructor|].
  destruct (Ascii.eqb c sep) eqn:E.
  - constructor; [reflexivity|exact IH].
  - destruct (Js.split sep s) as [|h t];
      [repeat constructor; simpl; rewrite E; reflexivity|].
    inversion IH; subst. constructor; [|assumption]. simpl. rewrite E. assumption.
Qed.

Lemma split_join sep l :
  l <> [] -> Forall (fun x => hasChar sep x = false) l ->
  Js.split sep (Js.join (String sep EmptyString) l) = l.
Proof.
  intros Hne HF. unfold Js.join.
  induction l as [|x l IH]; [congruence|]. clear Hne.
  inversion HF as [|? ? Hx Hl]; subst.
  destruct l as [|y l].
  - simpl. clear IH HF Hl. induction x as [|c x IHx]; [reflexivity|].
    simpl in *. apply orb_false_iff in Hx as [Hc Hx]. rewrite Hc, (IHx Hx). reflexivity.
  - specialize (IH ltac:(discriminate) Hl).
    change (String.concat (String sep EmptyString) (x :: y :: l))
      with (x ++ String sep EmptyString
              ++ String.concat (String sep EmptyString) (y :: l))%string.
    clear HF Hl. induction x as [|c x IHx].
    + simpl. rewrite Ascii.eqb_refl. simpl in IH. rewrite IH. reflexivity.
    + simpl in Hx. apply orb_false_iff in Hx as [Hc Hx].
      simpl. rewrite Hc. simpl in IHx. rewrite (IHx Hx). reflexivity.
Qed.

(** ** The agenda *)

Lemma agendaOfResponse_items t :
  Forall (fun it => 2 <= String.length (Js.trim it)
                    /\ hasChar (ascii_of_nat 10) it = false)
         (agendaOfResponse t).
Proof.
  unfold agendaOfResponse. apply Forall_forall. intros it H.
  apply filter_In in H as [H1 H2]. apply Nat.ltb_lt in H2. split; [lia|].
  pose proof (split_no_sep (ascii_of_nat 10) t) as HF.
  rewrite Forall_forall in HF. apply HF, H1.
Qed.

Lemma agenda_of_lines l :
  l <> [] ->
  Forall (fun it => 2 <= String.length (Js.trim it)
                    /\ hasChar (ascii_of_nat 10) it = false) l ->
  agendaOfResponse (Js.join Js.nl l) = l.
Proof.
  intros Hne HF. unfold agendaOfResponse, Js.nl.
  rewrite split_join; [|exact Hne|].
  - apply forallb_filter_id. apply forallb_forall. intros x Hx.
    rewrite Forall_forall in HF. apply HF in Hx as [Hx _]. apply Nat.ltb_lt. lia.
  - eapply Forall_impl; [|exact HF]. simpl. tauto.
Qed.

(** X1 ([generateAgenda]): every agenda item is one line of the response:
    it holds no line break, it is not blank (at least two characters are
    left once it is trimmed), and it is kept as the response has it, with
    its surrounding white space. *)
Theorem agenda_items_ok responseText :
  Forall (fun item =>
            In item (Js.split (ascii_of_nat 10) responseText)
            /\ hasChar (ascii_of_nat 10) item = false
            /\ 2 <= String.length (Js.trim item)
            /\ Js.trim item <> EmptyString)
         (agendaOfResponse responseText).
Proof.
  pose proof (agendaOfResponse_items responseText) as HF.
  rewrite Forall_forall in *. intros item Hin.
  destruct (HF item Hin) as [H1 H2].
  unfold agendaOfResponse in Hin. apply filter_In in Hin as [Hin _].
  repeat split; auto.
  intros E. rewrite E in H1. simpl in H1. lia.
Qed.

(** X2 ([generateAgenda], agenda notice of [runMeetingStep]): the agenda
    can be read back from its listing in the transcript: extracting the
    agenda from the joined agenda items gives the same items. *)
Theorem agenda_listing_round_trip responseText :
  agendaOfResponse (Js.join Js.nl (agendaOfResponse responseText))
  = agendaOfResponse responseText.
Proof.
  destruct (agendaOfResponse responseText) as [|a l] eqn:E; [reflexivity|].
  rewrite <- E. apply agenda_of_lines.
  - rewrite E. discriminate.
  - apply agendaOfResponse_items.
Qed.

(** ** Classification of a failed attempt *)

Lemma substring_middle pre needle post :
  String.substring (String.length pre) (String.length needle)
    (pre ++ needle ++ post) = needle.
Proof.
  induction pre as [|c pre IH]; simpl.
  - induction needle as [|d needle IHn]; simpl.
    + destruct post; reflexivity.
    + rewrite IHn. reflexivity.
  - exact IH.
Qed.

Lemma includes_middle pre needle post :
  needle <> EmptyString -> Js.includes needle (pre ++ needle ++ post) = true.
Proof.
  intros Hne. unfold Js.includes.
  destruct (String.index 0 needle (pre ++ needle ++ post)) eqn:E; [reflexivity|].
  exfalso.
  apply (String.index_correct3 0 (String.length pre) needle _ E Hne (Nat.le_0_l _)).
  apply substring_middle.
Qed.

Lemma toLowerCase_app a b :
  Js.toLowerCase (a ++ b) = Js.toLowerCase a ++ Js.toLowerCase b.
Proof. induction a as [|c a IH]; simpl; [reflexivity|rewrite IH; reflexivity]. Qed.

(** X3 ([generateContentWithRetry], the [catch] of an attempt): an error
    message counts as a rate limit whenever it contains "429", "rate limit"
    or "resource_exhausted" anywhere, in any mix of upper and lower case. *)
Theorem rate_limit_match_ignores_case pre w post :
  Js.toLowerCase w = "429" \/ Js.toLowerCase w = "rate limit"
  \/ Js.toLowerCase w = "resource_exhausted" ->
  isRateLimitError (pre ++ w ++ post) = true.
Proof.
  intros H. unfold isRateLimitError. rewrite !toLowerCase_app.
  destruct H as [H|[H|H]]; rewrite H.
  - rewrite includes_middle by discriminate. reflexivity.
  - rewrite (includes_middle _ "rate limit") by discriminate.
    apply orb_true_iff. left. apply orb_true_r.
  - rewrite (includes_middle _ "resource_exhausted") by discriminate.
    apply orb_true_r.
Qed.

Lemma rate_limit_match_ignores_case_witness :
  isRateLimitError ("Quota: " ++ "Resource_Exhausted" ++ " (try later)") = true.
Proof.
  apply (rate_limit_match_ignores_case "Quota: " "Resource_Exhausted" " (try later)").
  right. right. reflexivity.
Defined.

Lemma substring_suffix s : forall n m,
  String.length s <= n + m -> n <= String.length s ->
  exists pre, s = pre ++ String.substring n m s /\ String.length pre = n.
Proof.
  induction s as [|c s IH]; intros n m H1 H2.
  - simpl in H2. assert (n = 0) by lia. subst n. exists EmptyString.
    destruct m; simpl; auto.
  - destruct n as [|n].
    + exists EmptyString. split; [|reflexivity]. simpl in H1.
      destruct m as [|m]; [lia|]. simpl.
      destruct (IH 0 m) as [pre [Hp Hl]]; [lia|lia|].
      destruct pre; [|discriminate]. simpl in Hp. rewrite <- Hp. reflexivity.
    + simpl in H1, H2. destruct (IH n m) as [pre [Hp Hl]]; [lia|lia|].
      exists (String c pre). simpl. rewrite <- Hp. auto.
Qed.

Lemma length_append a b :
  String.length (a ++ b) = String.length a + String.length b.
Proof. induction a as [|c a IH]; simpl; [reflexivity|rewrite IH; reflexivity]. Qed.

(** X4 ([generateContentWithRetry], the error of an attempt that failed
    for another reason than a rate limit): the message shows of the key
    only its last four characters, or the whole key when it has at most
    four. *)
Theorem invalid_key_message_shows_suffix apiKey :
  exists pre suffix,
    apiKey = pre ++ suffix
    /\ String.length suffix = Nat.min 4 (String.length apiKey)
    /\ invalidKeyMessage apiKey
       = "API call failed for key ..." ++ suffix ++ ". It might be invalid.".
Proof.
  destruct (substring_suffix apiKey (String.length apiKey - 4) 4)
    as [pre [Hp Hl]]; [lia|lia|].
  exists pre, (Js.sliceLast4 apiKey). unfold Js.sliceLast4 at 1.
  split; [exact Hp|]. split; [|reflexivity].
  apply (f_equal String.length) in Hp. rewrite length_append, Hl in Hp.
  unfold Js.sliceLast4. lia.
Qed.

(** ** Whole calls of the gateway *)

Local Close Scope string_scope.

Lemma answer_rejected replies aborted e m :
  answer replies aborted (Rejected e, m) = (Threw e, m, 0).
Proof. destruct replies; reflexivity. Qed.

Lemma keyLoop_left n aborted : forall m key k,
  fst (keyLoop n aborted m) = Suspended key k -> k < n.
Proof.
  induction n as [|n IH]; intros m key k H; simpl in H;
    destruct (getNextKey m) as [o m'].
  - discriminate.
  - destruct o as [x|].
    + destruct aborted; simpl in H; [discriminate|]. inversion H. lia.
    + apply IH in H. lia.
Qed.

Lemma answer_bound replies aborted : forall o,
  attemptsOf (answer replies aborted o)
  <= match fst o with Suspended _ n => S n | Rejected _ => 0 end.
Proof.
  induction replies as [|r replies IH]; intros o; simpl.
  - destruct (fst o); simpl; lia.
  - destruct (fst o) as [key n|e] eqn:Eo; simpl; [|lia].
    destruct r as [t|msg]; [unfold attemptsOf; simpl; lia|].
    specialize (IH (attemptFailed msg key n aborted (snd o))).
    destruct (answer replies aborted _) as [[r m] k]. unfold attemptsOf in *. simpl in *.
    unfold attemptFailed in IH. destruct (isRateLimitError msg).
    + destruct (fst (keyLoop n aborted (snd o))) as [key' n'|e'] eqn:Ek.
      * apply keyLoop_left in Ek. lia.
      * lia.
    + simpl in IH. lia.
Qed.

(** X5 ([generateContentWithRetry]): whatever the backend replies, one call
    of the gateway makes at most as many attempts as the pool holds keys. *)
Theorem gateway_attempts_bounded replies aborted m :
  attemptsOf (callGateway replies aborted m) <= getAvailableKeyCount m.
Proof.
  unfold callGateway. pose proof (answer_bound replies aborted
    (generateContentWithRetry aborted m)) as H.
  unfold generateContentWithRetry in *.
  destruct (getAvailableKeyCount m =? 0) eqn:E.
  - simpl in H. lia.
  - destruct (fst (keyLoop (getAvailableKeyCount m) aborted m)) eqn:Ek.
    + apply keyLoop_left in Ek. lia.
    + lia.
Qed.

(** X6 ([generateContentWithRetry]): a call made with a signal that is
    already aborted throws without any attempt at the backend. *)
Theorem cancelled_call_makes_no_attempt replies m :
  attemptsOf (callGateway replies true m) = 0
  /\ exists e, resultOf (callGateway replies true m) = Threw e.
Proof.
  unfold callGateway, generateContentWithRetry.
  destruct (getAvailableKeyCount m =? 0).
  - destruct replies; simpl; (split; [reflexivity|eexists; reflexivity]).
  - destruct (keyLoop_aborted (getAvailableKeyCount m) m) as [e He].
    destruct replies; simpl; rewrite He; simpl;
      (split; [reflexivity|eexists; reflexivity]).
Qed.

Lemma fail_step ks i n msg :
  i < List.length ks -> isRateLimitError msg = true ->
  attemptFailed msg (valueAt ks i) (S n) false (snd (awaitingAt ks i (S n)))
  = awaitingAt ks ((i + 1) mod List.length ks) n.
Proof.
  intros Hi Hr. unfold attemptFailed. rewrite Hr. unfold awaitingAt. simpl snd.
  rewrite keyLoop_next by (unfold wf; simpl; apply Nat.mod_upper_bound; lia).
  simpl. rewrite (getNextKey_wf (mkManager ks _))
    by (unfold wf; simpl; apply Nat.mod_upper_bound; lia).
  reflexivity.
Qed.

Lemma answer_rotates ks : forall msgs i n rest,
  i < List.length ks ->
  Forall (fun msg => isRateLimitError msg = true) msgs ->
  List.length msgs <= n ->
  answer (map Failure msgs ++ rest) false (awaitingAt ks i n)
  = let x := answer rest false
               (awaitingAt ks ((i + List.length msgs) mod List.length ks)
                  (n - List.length msgs)) in
    (resultOf x, poolOf x, List.length msgs + attemptsOf x).
Proof.
  induction msgs as [|msg msgs IH]; intros i n rest Hi HF Hn.
  - simpl. rewrite Nat.add_0_r, Nat.sub_0_r, (Nat.mod_small _ _ Hi).
    destruct (answer rest false (awaitingAt ks i n)) as [[r m] k]. reflexivity.
  - inversion HF; subst. simpl in Hn. destruct n as [|n]; [lia|].
    cbn [map app answer awaitingAt fst].
    change (mkManager ks ((i + 1) mod List.length ks))
      with (snd (awaitingAt ks i (S n))).
    rewrite fail_step by assumption.
    rewrite IH; [|apply Nat.mod_upper_bound; lia|assumption|lia].
    cbn [List.length Nat.sub].
    rewrite Nat.Div0.add_mod_idemp_l.
    replace (i + 1 + List.length msgs) with (i + S (List.length msgs)) by lia.
    destruct (answer rest false _) as [[r m] k]. reflexivity.
Qed.

Lemma first_awaiting m :
  wf m ->
  generateContentWithRetry false m
  = awaitingAt (keys m) (currentIndex m) (List.length (keys m) - 1).
Proof. intros H. rewrite (first_attempt m H). reflexivity. Qed.

(** X7 ([generateContentWithRetry], [ApiKeyManager.getNextKey]): when the
    first [j] attempts of a call are rate-limited, with [j] less than the
    number of keys, and the next attempt succeeds, the call returns that
    response; it was obtained with the key [j] places after the cursor
    (wrapping around), the cursor is left just behind that key, and [j + 1]
    attempts were made. *)
Theorem gateway_rotates_to_first_success m msgs t rest :
  wf m ->
  Forall (fun msg => isRateLimitError msg = true) msgs ->
  List.length msgs < getAvailableKeyCount m ->
  callGateway (map Failure msgs ++ Success t :: rest) false m
  = (Returned t (valueAt (keys m)
                   ((currentIndex m + List.length msgs) mod getAvailableKeyCount m)),
     mkManager (keys m)
       ((currentIndex m + List.length msgs + 1) mod getAvailableKeyCount m),
     List.length msgs + 1).
Proof.
  intros Hwf HF Hl. unfold callGateway, getAvailableKeyCount in *.
  rewrite (first_awaiting m Hwf).
  rewrite answer_rotates; [|exact Hwf|exact HF|lia].
  cbn [answer awaitingAt fst snd resultOf poolOf attemptsOf].
  rewrite Nat.Div0.add_mod_idemp_l. reflexivity.
Qed.

Lemma gateway_rotates_to_first_success_witness :
  callGateway [Failure "429 Too Many Requests"%string; Success "1. Pricing"%string]
    false (newApiKeyManager [Ex.keyA; Ex.keyB])
  = (Returned "1. Pricing"%string "key-b"%string,
     mkManager [Ex.keyA; Ex.keyB] 0, 2).
Proof.
  apply (gateway_rotates_to_first_success (newApiKeyManager [Ex.keyA; Ex.keyB])
           ["429 Too Many Requests"%string] "1. Pricing"%string []).
  - vm_compute. lia.
  - repeat constructor.
  - vm_compute. lia.
Defined.

Lemma callGateway_all_throttled m msgs rest :
  wf m ->
  Forall (fun msg => isRateLimitError msg = true) msgs ->
  List.length msgs = getAvailableKeyCount m ->
  callGateway (map Failure msgs ++ rest) false m
  = (Threw (RateLimitError allLimitedMessage (valueAt (keys m) (currentIndex m))),
     mkManager (keys m) ((currentIndex m + 1) mod getAvailableKeyCount m),
     getAvailableKeyCount m).
Proof.
  intros Hwf HF Hl. unfold callGateway, getAvailableKeyCount in *.
  pose proof Hwf as Hc. unfold wf in Hc.
  destruct (exists_last_or msgs) as [E|[msgs' [msg E]]];
    [subst msgs; simpl in Hl; lia|].
  subst msgs. rewrite length_app in Hl. simpl in Hl.
  apply Forall_app in HF as [HF Hm]. inversion Hm as [|? ? Hmsg _]; subst.
  rewrite (first_awaiting m Hwf), map_app, <- app_assoc.
  rewrite answer_rotates; [|exact Hwf|exact HF|lia].
  replace (List.length (keys m) - 1 - List.length msgs') with 0 by lia.
  cbn [map app answer awaitingAt fst snd]. unfold attemptFailed. rewrite Hmsg.
  set (c := List.length (keys m)) in *.
  rewrite keyLoop_next by (unfold wf; simpl; apply Nat.mod_upper_bound; lia).
  cbn [currentIndex keys].
  rewrite (getNextKey_wf (mkManager (keys m) _))
    by (unfold wf; simpl; apply Nat.mod_upper_bound; lia).
  cbn [snd keys currentIndex answer fst resultOf poolOf attemptsOf].
  fold c. rewrite !Nat.Div0.add_mod_idemp_l.
  replace (currentIndex m + List.length msgs' + 1) with (currentIndex m + 1 * c) by lia.
  rewrite Nat.Div0.mod_add, (Nat.mod_small _ _ Hc).
  replace (currentIndex m + 1 * c + 1) with (currentIndex m + 1 + 1 * c) by lia.
  rewrite Nat.Div0.mod_add.
  rewrite answer_rejected. cbn [resultOf poolOf attemptsOf fst snd].
  repeat f_equal. lia.
Qed.

(** X8 ([generateContentWithRetry]): when every key of the pool is
    rate-limited in turn, the call throws the rate limit error "All API
    keys are currently rate-limited..." after one attempt per key.  The key
    it reports is the one the rotation yields after the full round, which
    is the key the call tried first, and the cursor ends one place further
    than where the call found it. *)
Theorem gateway_all_throttled m msgs rest :
  wf m ->
  Forall (fun msg => isRateLimitError msg = true) msgs ->
  List.length msgs = getAvailableKeyCount m ->
  let x := callGateway (map Failure msgs ++ rest) false m in
  resultOf x
  = Threw (RateLimitError allLimitedMessage (valueAt (keys m) (currentIndex m)))
  /\ (exists n, fst (generateContentWithRetry false m)
                = Suspended (valueAt (keys m) (currentIndex m)) n)
  /\ attemptsOf x = getAvailableKeyCount m
  /\ keys (poolOf x) = keys m
  /\ currentIndex (poolOf x) = (currentIndex m + 1) mod getAvailableKeyCount m.
Proof.
  intros Hwf HF Hl x. subst x.
  rewrite (callGateway_all_throttled m msgs rest Hwf HF Hl).
  split; [reflexivity|]. split; [|split; [|split]; reflexivity].
  rewrite (first_attempt m Hwf). eexists. reflexivity.
Qed.

Lemma gateway_all_throttled_witness :
  let m := newApiKeyManager [Ex.keyA; Ex.keyB] in
  let x := callGateway
             (map Failure ["429"%string; "Rate limit exceeded"%string] ++ [])
             false m in
  resultOf x
  = Threw (RateLimitError allLimitedMessage (valueAt (keys m) (currentIndex m)))
  /\ (exists n, fst (generateContentWithRetry false m)
                = Suspended (valueAt (keys m) (currentIndex m)) n)
  /\ attemptsOf x = getAvailableKeyCount m
  /\ keys (poolOf x) = keys m
  /\ currentIndex (poolOf x) = (currentIndex m + 1) mod getAvailableKeyCount m.
Proof.
  intros m.
  apply (gateway_all_throttled m ["429"%string; "Rate limit exceeded"%string] []).
  - vm_compute. lia.
  - repeat constructor.
  - reflexivity.
Defined.

(** X9 ([generateContentWithRetry]): an attempt that fails for another
    reason than a rate limit ends the call at once: the call throws the
    error "API call failed for key ..." naming the key of that attempt, and
    no further key is tried. *)
Theorem gateway_stops_at_other_error m msgs msg rest :
  wf m ->
  Forall (fun msg => isRateLimitError msg = true) msgs ->
  List.length msgs < getAvailableKeyCount m ->
  isRateLimitError msg = false ->
  let key := valueAt (keys m)
               ((currentIndex m + List.length msgs) mod getAvailableKeyCount m) in
  callGateway (map Failure msgs ++ Failure msg :: rest) false m
  = (Threw (RateLimitError (invalidKeyMessage key) key),
     mkManager (keys m)
       ((currentIndex m + List.length msgs + 1) mod getAvailableKeyCount m),
     List.length msgs + 1).
Proof.
  intros Hwf HF Hl Hmsg key. subst key. unfold callGateway, getAvailableKeyCount in *.
  rewrite (first_awaiting m Hwf).
  rewrite answer_rotates; [|exact Hwf|exact HF|lia].
  cbn [answer awaitingAt fst snd]. unfold attemptFailed. rewrite Hmsg.
  rewrite answer_rejected. cbn [fst snd resultOf poolOf attemptsOf].
  rewrite Nat.Div0.add_mod_idemp_l. reflexivity.
Qed.

Lemma gateway_stops_at_other_error_witness :
  callGateway [Failure "429"%string; Failure "API key not valid"%string;
               Success "never read"%string]
    false (newApiKeyManager [Ex.keyA; Ex.keyB])
  = (Threw (RateLimitError (invalidKeyMessage "key-b"%string) "key-b"%string),
     mkManager [Ex.keyA; Ex.keyB] 0, 2).
Proof.
  apply (gateway_stops_at_other_error (newApiKeyManager [Ex.keyA; Ex.keyB])
           ["429"%string] "API key not valid"%string [Success "never read"%string]).
  - vm_compute. lia.
  - repeat constructor.
  - vm_compute. lia.
  - reflexivity.
Defined.

(** ** One step at a time *)



(** ** The history of a prompt *)











(** ** A first call that finds every key rate-limited *)

Lemma serve_threw cl k : forall replies s key n m e m' j,
  suspended s = Some (mkInFlight cl k key n) ->
  orchestratorRef s = Some m ->
  abortControllerRef s = Some false ->
  answer replies false (Suspended key n, m) = (Threw e, m', j) ->
  serve (firstn j replies) s
  = catchBlock cl e (setOrchestratorRef (Some m') (setSuspended None s)).
Proof.
  induction replies as [|r replies IH]; intros s key n m e m' j Hs Ho Ha H.
  - simpl in H. discriminate.
  - simpl in H. destruct r as [t|msg]; [discriminate|].
    destruct (answer replies false (attemptFailed msg key n false m))
      as [[r1 m1] j1] eqn:E.
    inversion H; subst. clear H.
    cbn [firstn serve]. rewrite Hs. cbn [step].
    unfold backendReply. rewrite Hs, Ho, Ha.
    cbn [closure continuation attemptKey attemptsLeft].
    unfold settle.
    destruct (attemptFailed msg key n false m) as [o1 m2] eqn:Ef.
    cbn [fst snd].
    destruct o1 as [key' n'|e'].
    + erewrite IH; [|reflexivity|reflexivity|exact Ha|exact E]. reflexivity.
    + rewrite answer_rejected in E. inversion E; subst. reflexivity.
Qed.

Lemma find_by_value ks k :
  NoDup (map ApiKey.value ks) -> In k ks ->
  find (fun x => String.eqb (ApiKey.value x) (ApiKey.value k)) ks = Some k.
Proof.
  induction ks as [|x ks IH]; intros ND Hin; [destruct Hin|].
  simpl in ND. inversion ND as [|? ? Hx ND']; subst. simpl.
  destruct Hin as [E|Hin].
  - subst x. rewrite String.eqb_refl. reflexivity.
  - destruct (String.eqb_spec (ApiKey.value x) (ApiKey.value k)) as [E|E].
    + exfalso. apply Hx. rewrite E. apply in_map. exact Hin.
    + apply IH; assumption.
Qed.

Lemma markStatus_restores id ks :
  (forall x, In x ks -> ApiKey.id x = id -> ApiKey.status x = active) ->
  map (markStatus id active) (map (markStatus id rate_limited) ks) = ks.
Proof.
  intros H. rewrite map_map. rewrite <- (map_id ks) at 2.
  apply map_ext_in. intros x Hx. unfold markStatus.
  destruct (String.eqb_spec (ApiKey.id x) id) as [E|E].
  - simpl. rewrite E, String.eqb_refl. specialize (H x Hx E).
    destruct x as [i v st]. simpl in *. subst. reflexivity.
  - apply String.eqb_neq in E. rewrite E. reflexivity.
Qed.

Lemma unique_id ks k x :
  NoDup (map ApiKey.id ks) -> In k ks -> In x ks -> ApiKey.id x = ApiKey.id k -> x = k.
Proof.
  induction ks as [|y ks IH]; intros ND Hk Hx E; [destruct Hk|].
  simpl in ND. inversion ND as [|? ? Hy ND']; subst.
  destruct Hk as [Hk|Hk], Hx as [Hx|Hx]; subst.
  - reflexivity.
  - exfalso. apply Hy. rewrite <- E. apply in_map. exact Hx.
  - exfalso. apply Hy. rewrite E. apply in_map. exact Hk.
  - apply IH; assumption.
Qed.

Lemma first_call_begun s0 :
  isMeetingRunning s0 = false ->
  isWaitingForAI s0 = false ->
  suspended s0 = None ->
  filter usableAtCreation (apiKeys s0) <> [] ->
  let usable := filter usableAtCreation (apiKeys s0) in
  let s1 := step TimerFires (handleStartMeeting s0) in
  suspended s1
  = Some (mkInFlight
            (mkClosure (meetingTopic s0) (personas s0) [openingNotice] (apiKeys s0))
            AfterAgenda (valueAt usable 0) (List.length usable - 1))
  /\ orchestratorRef s1 = Some (mkManager usable (1 mod List.length usable))
  /\ abortControllerRef s1 = Some false
  /\ chatHistory s1 = [openingNotice]
  /\ apiKeys s1 = apiKeys s0
  /\ error s1 = None
  /\ cooldownTimers s1 = cooldownTimers s0.
Proof.
  intros Hr Hw Hs Hk usable s1.
  pose proof (usable_hasActiveKey _ Hk) as Hact.
  pose proof (newApiKeyManager_wf _ Hk) as Hwf.
  subst s1. destruct s0 as [ps topic ks h run wait err ctl orch st susp timers log].
  cbn [isMeetingRunning isWaitingForAI suspended apiKeys cooldownTimers
       meetingTopic personas] in *.
  subst run wait susp.
  unfold handleStartMeeting. cbn [isMeetingRunning apiKeys orb]. rewrite Hact.
  cbn [negb]. unfold step, tickScheduled, runMeetingStep.
  cbn -[invoke Nat.modulo newApiKeyManager].
  erewrite invoke_ok; [|reflexivity|reflexivity|exact Hwf].
  cbn -[Nat.modulo]. repeat split.
Qed.

Lemma catchBlock_rate_limit cl message failingKey s :
  let s' := catchBlock cl (RateLimitError message failingKey) s in
  isMeetingRunning s' = false
  /\ suspended s' = None
  /\ chatHistory s' = filter notThinking (chatHistory s)
  /\ error s' = Some ("An error occurred: " ++ message)%string
  /\ match find (fun k => String.eqb (ApiKey.value k) failingKey) (c_apiKeys cl) with
     | Some fk =>
         apiKeys s' = map (markStatus (ApiKey.id fk) rate_limited) (apiKeys s)
         /\ cooldownTimers s' = cooldownTimers s ++ [ApiKey.id fk]
     | None => apiKeys s' = apiKeys s /\ cooldownTimers s' = cooldownTimers s
     end.
Proof.
  cbv zeta. unfold catchBlock.
  destruct (find _ (c_apiKeys cl)); simpl; repeat split.
Qed.

(** X12 ([handleStartMeeting], [runMeetingStep], [generateContentWithRetry],
    cooldown callback): when the first call of a meeting finds every usable
    key rate-limited (keys with distinct values and distinct ids), the
    meeting stops with only the opening entry in the transcript and the
    error "An error occurred: All API keys are currently rate-limited...";
    of all the keys only the first usable one is marked rate-limited and
    given a cooldown, and when that cooldown expires the key list is again
    what it was before the meeting. *)
Theorem all_keys_throttled_on_first_call s0 msgs k0 rest :
  isMeetingRunning s0 = false ->
  isWaitingForAI s0 = false ->
  suspended s0 = None ->
  filter usableAtCreation (apiKeys s0) = k0 :: rest ->
  Forall (fun msg => isRateLimitError msg = true) msgs ->
  List.length msgs = S (List.length rest) ->
  NoDup (map ApiKey.value (apiKeys s0)) ->
  NoDup (map ApiKey.id (apiKeys s0)) ->
  let s := serve (map Failure msgs) (handleStartMeeting s0) in
  isMeetingRunning s = false
  /\ suspended s = None
  /\ chatHistory s = [openingNotice]
  /\ error s = Some ("An error occurred: " ++ allLimitedMessage)%string
  /\ apiKeys s = map (markStatus (ApiKey.id k0) rate_limited) (apiKeys s0)
  /\ cooldownTimers s = cooldownTimers s0 ++ [ApiKey.id k0]
  /\ apiKeys (cooldownExpires (ApiKey.id k0) s) = apiKeys s0.
Proof.
  intros Hr Hw Hs Hu HF Hl NDv NDi s.
  assert (Hk : filter usableAtCreation (apiKeys s0) <> []) by (rewrite Hu; discriminate).
  pose proof (newApiKeyManager_wf _ Hk) as Hwf.
  assert (Hin : In k0 (apiKeys s0) /\ usableAtCreation k0 = true).
  { apply filter_In. rewrite Hu. left. reflexivity. }
  destruct Hin as [Hin Hk0].
  apply usableAtCreation_spec in Hk0 as [Hst _].
  pose proof (callGateway_all_throttled (newApiKeyManager (apiKeys s0)) msgs [] Hwf HF)
    as Hg.
  unfold getAvailableKeyCount in Hg. cbn [newApiKeyManager keys currentIndex] in Hg.
  rewrite Hu in Hg. specialize (Hg Hl).
  unfold callGateway in Hg. rewrite app_nil_r in Hg.
  rewrite (first_attempt _ Hwf) in Hg.
  cbn [newApiKeyManager keys currentIndex] in Hg. rewrite Hu in Hg.
  destruct (first_call_begun s0 Hr Hw Hs Hk) as [B1 [B2 [B3 [B4 [B5 [B6 B7]]]]]].
  rewrite Hu in B1, B2.
  set (s1 := step TimerFires (handleStartMeeting s0)) in *.
  assert (Es : s = serve (firstn (List.length (k0 :: rest)) (map Failure msgs)) s1).
  { rewrite firstn_all2 by (rewrite length_map; simpl; lia).
    subst s. destruct msgs as [|msg msgs]; [discriminate|].
    cbn [map serve]. rewrite B1.
    assert (E0 : suspended (handleStartMeeting s0) = None).
    { unfold handleStartMeeting.
      destruct (_ || _); [destruct (negb _)|]; simpl; exact Hs. }
    rewrite E0. reflexivity. }
  rewrite (serve_threw _ _ _ s1 _ _ _ _ _ _ B1 B2 B3 Hg) in Es.
  match type of Es with
  | s = catchBlock ?cl (RateLimitError ?m ?fk) ?sx =>
      destruct (catchBlock_rate_limit cl m fk sx) as [C1 [C2 [C3 [C4 C5]]]]
  end.
  rewrite <- Es in C1, C2, C3, C4, C5.
  cbn [c_apiKeys valueAt nth_error] in C5.
  rewrite (find_by_value _ k0 NDv Hin) in C5. destruct C5 as [C5 C6].
  cbn [apiKeys cooldownTimers setOrchestratorRef setSuspended chatHistory] in C3, C5, C6.
  rewrite B4 in C3. rewrite B5 in C5. rewrite B7 in C6.
  split; [exact C1|]. split; [exact C2|]. split; [exact C3|]. split; [exact C4|].
  split; [exact C5|]. split; [exact C6|].
  unfold cooldownExpires. rewrite C6, existsb_app. cbn [existsb].
  rewrite String.eqb_refl, orb_true_r. cbn [apiKeys setCooldownTimers setApiKeys].
  rewrite C5. apply markStatus_restores. intros x Hx E.
  rewrite (unique_id _ k0 x NDi Hin Hx E). exact Hst.
Qed.

Lemma all_keys_throttled_on_first_call_witness :
  let s := serve (map Failure ["429"%string; "Rate limit exceeded"%string])
             (handleStartMeeting Ex.app) in
  isMeetingRunning s = false
  /\ suspended s = None
  /\ chatHistory s = [openingNotice]
  /\ error s = Some ("An error occurred: " ++ allLimitedMessage)%string
  /\ apiKeys s = map (markStatus (ApiKey.id Ex.keyA) rate_limited) (apiKeys Ex.app)
  /\ cooldownTimers s = cooldownTimers Ex.app ++ [ApiKey.id Ex.keyA]
  /\ apiKeys (cooldownExpires (ApiKey.id Ex.keyA) s) = apiKeys Ex.app.
Proof.
  apply (all_keys_throttled_on_first_call Ex.app
           ["429"%string; "Rate limit exceeded"%string] Ex.keyA [Ex.keyB]);
    try reflexivity.
  - repeat constructor.
  - vm_compute. repeat constructor; simpl; intuition discriminate.
  - vm_compute. repeat constructor; simpl; intuition discriminate.
Defined.

Local Open Scope string_scope.
Local Open Scope nat_scope.

(** ** The key list of the settings *)

Lemma markStatus_value id st ks :
  map ApiKey.value (map (markStatus id st) ks) = map ApiKey.value ks
  /\ map ApiKey.id (map (markStatus id st) ks) = map ApiKey.id ks.
Proof.
  rewrite !map_map. split; apply map_ext; intros k; unfold markStatus;
    destruct (String.eqb (ApiKey.id k) id); reflexivity.
Qed.

Lemma NoDup_snoc {A} (l : list A) x : NoDup l -> ~ In x l -> NoDup (l ++ [x])%list.
Proof.
  intros ND Hx. induction l as [|a l IH]; simpl.
  - constructor; [intros []|constructor].
  - inversion ND; subst. constructor.
    + rewrite in_app_iff. simpl. intros [H|[H|[]]]; [contradiction|].
      subst. apply Hx. left. reflexivity.
    + apply IH; [assumption|]. intros H. apply Hx. right. exact H.
Qed.

Lemma NoDup_map_filter {A B} (f : A -> B) p (l : list A) :
  NoDup (map f l) -> NoDup (map f (filter p l)).
Proof.
  induction l as [|a l IH]; simpl; intros ND; [constructor|].
  inversion ND; subst. destruct (p a); simpl; [|auto].
  constructor; [|auto]. intros H. apply H1.
  apply in_map_iff in H as [x [E Hx]]. apply filter_In in Hx as [Hx _].
  rewrite <- E. apply in_map. exact Hx.
Qed.

Lemma uiKeys_inv ks :
  uiKeys ks -> NoDup (map ApiKey.value ks) /\ Forall keyOk ks.
Proof.
  induction 1 as [|raw ks H [IH1 IH2]|id ks H [IH1 IH2]|id st ks H [IH1 IH2]].
  - split; constructor.
  - unfold handleAddKey, Js.truthy.
    destruct (String.eqb_spec (Js.trim raw) EmptyString) as [E|E]; simpl; [auto|].
    unfold handleAddApiKey.
    destruct (existsb _ ks) eqn:Ex; [auto|]. split.
    + rewrite map_app. simpl. apply NoDup_snoc; [exact IH1|].
      intros Hin. apply in_map_iff in Hin as [k [Ek Hk]].
      assert (existsb (fun k => String.eqb (ApiKey.value k) (Js.trim raw)) ks = true).
      { apply existsb_exists. exists k. split; [exact Hk|].
        rewrite Ek. apply String.eqb_refl. }
      congruence.
    + apply Forall_app. split; [exact IH2|]. constructor; [|constructor].
      unfold keyOk. simpl. split; [reflexivity|].
      split; [apply trim_idempotent|exact E].
  - unfold handleDeleteApiKey. split.
    + apply NoDup_map_filter. exact IH1.
    + apply Forall_forall. intros k Hk. apply filter_In in Hk as [Hk _].
      rewrite Forall_forall in IH2. auto.
  - destruct (markStatus_value id st ks) as [Ev _]. split; [rewrite Ev; exact IH1|].
    apply Forall_forall. intros k Hk. apply in_map_iff in Hk as [k0 [E Hk0]].
    rewrite Forall_forall in IH2. specialize (IH2 k0 Hk0).
    subst k. unfold markStatus. destruct (String.eqb (ApiKey.id k0) id); exact IH2.
Qed.

Lemma keyOk_ids ks : Forall keyOk ks -> map ApiKey.id ks = map ApiKey.value ks.
Proof.
  induction 1 as [|k ks [Hk _] _ IH]; simpl; [reflexivity|].
  rewrite Hk, IH. reflexivity.
Qed.

(** X13 ([handleAddKey], [handleAddApiKey], [handleDeleteApiKey],
    [handleCheckApiKey]): however keys are added, deleted and re-statused
    through the settings, starting from no keys, the values of the list are
    pairwise distinct and so are the ids, every id equals its value, and
    every value is trimmed and not empty. *)
Theorem ui_keys_invariant ks :
  uiKeys ks ->
  NoDup (map ApiKey.value ks)
  /\ NoDup (map ApiKey.id ks)
  /\ Forall (fun k => ApiKey.id k = ApiKey.value k
                      /\ Js.trim (ApiKey.value k) = ApiKey.value k
                      /\ ApiKey.value k <> EmptyString) ks.
Proof.
  intros H. destruct (uiKeys_inv ks H) as [H1 H2].
  split; [exact H1|]. split; [rewrite (keyOk_ids ks H2); exact H1|exact H2].
Qed.

Lemma ui_keys_invariant_witness :
  let ks := handleDeleteApiKey "key-b"
              (map (markStatus "key-a" active)
                 (handleAddKey " key-b"
                    (handleAddKey "key-a" (handleAddKey "  key-a  " [])))) in
  NoDup (map ApiKey.value ks)
  /\ NoDup (map ApiKey.id ks)
  /\ Forall (fun k => ApiKey.id k = ApiKey.value k
                      /\ Js.trim (ApiKey.value k) = ApiKey.value k
                      /\ ApiKey.value k <> EmptyString) ks.
Proof.
  intros ks. apply (ui_keys_invariant ks).
  unfold ks. apply ui_delete, ui_status, ui_add, ui_add, ui_add, ui_none.
Defined.

Lemma nonblank_of_keyOk k : keyOk k -> onlyWhitespace (ApiKey.value k) = false.
Proof.
  intros [_ [Ht Hne]]. apply not_true_iff_false. intros H.
  apply trim_empty in H. congruence.
Qed.

(** X14 ([handleStartMeeting], [ApiKeyManager] constructor, [handleAddKey]):
    for a key list built through the settings, the check of
    [handleStartMeeting] (some key has status 'active') holds exactly when
    the pool created for the meeting is not empty. *)
Theorem active_ui_key_fills_pool ks :
  uiKeys ks ->
  (hasActiveKey ks = true <-> 0 < getAvailableKeyCount (newApiKeyManager ks)).
Proof.
  intros H. apply uiKeys_inv in H as [_ HF]. rewrite Forall_forall in HF.
  unfold getAvailableKeyCount, newApiKeyManager, hasActiveKey. simpl. split.
  - intros Ha. apply existsb_exists in Ha as [k [Hk Hs]].
    assert (Hin : In k (filter usableAtCreation ks)).
    { apply filter_In. split; [exact Hk|]. apply usableAtCreation_spec.
      split; [apply ApiKeyStatus_eqb_eq; exact Hs|apply nonblank_of_keyOk; auto]. }
    destruct (filter usableAtCreation ks); [destruct Hin|simpl; lia].
  - intros Hc. apply usable_hasActiveKey. intros E. rewrite E in Hc. simpl in Hc. lia.
Qed.

Lemma active_ui_key_fills_pool_witness :
  let ks := map (markStatus "key-a" active)
              (handleAddKey "key-b" (handleAddKey " key-a " [])) in
  hasActiveKey ks = true <-> 0 < getAvailableKeyCount (newApiKeyManager ks).
Proof.
  intros ks. apply (active_ui_key_fills_pool ks).
  unfold ks. apply ui_status, ui_add, ui_add, ui_none.
Defined.

(** X15 ([handleStartMeeting], [runMeetingStep], [generateContentWithRetry]):
    when some key is active but every active key has a blank value,
    [handleStartMeeting] starts the meeting, and its first step ends it
    again with the error "An unexpected error occurred: No active API keys
    available..."; the transcript holds the opening entry only and no key
    status is changed. *)
Theorem blank_active_keys_fail_first_step s0 :
  isMeetingRunning s0 = false ->
  isWaitingForAI s0 = false ->
  hasActiveKey (apiKeys s0) = true ->
  filter usableAtCreation (apiKeys s0) = [] ->
  let s := step TimerFires (handleStartMeeting s0) in
  isMeetingRunning (handleStartMeeting s0) = true
  /\ isMeetingRunning s = false
  /\ suspended s = None
  /\ error s = Some ("An unexpected error occurred: " ++ noKeysMessage)
  /\ chatHistory s = [openingNotice]
  /\ apiKeys s = apiKeys s0.
Proof.
  intros Hr Hw Ha Hu s. subst s.
  destruct s0 as [ps topic ks h run wait err ctl orch st susp timers log].
  cbn [isMeetingRunning isWaitingForAI apiKeys] in *. subst run wait.
  unfold handleStartMeeting. cbn [isMeetingRunning apiKeys orb]. rewrite Ha.
  cbn [negb]. unfold step, tickScheduled, runMeetingStep.
  cbn -[invoke newApiKeyManager].
  unfold invoke. cbn -[generateContentWithRetry newApiKeyManager].
  unfold generateContentWithRetry, getAvailableKeyCount, newApiKeyManager.
  cbn [keys]. rewrite Hu. cbn. repeat split.
Qed.

Lemma blank_active_keys_fail_first_step_witness :
  let s0 := initialApp [Ex.alice; Ex.bob] "Launch plan" [Ex.blankKey] in
  let s := step TimerFires (handleStartMeeting s0) in
  isMeetingRunning (handleStartMeeting s0) = true
  /\ isMeetingRunning s = false
  /\ suspended s = None
  /\ error s = Some ("An unexpected error occurred: " ++ noKeysMessage)
  /\ chatHistory s = [openingNotice]
  /\ apiKeys s = apiKeys s0.
Proof.
  intros s0.
  apply (blank_active_keys_fail_first_step s0); reflexivity.
Defined.

(** ** Personas *)

Local Close Scope string_scope.

Lemma handleSavePersona_cons p q ps :
  handleSavePersona p (q :: ps)
  = if String.eqb (Persona.id q) (Persona.id p) then p :: ps
    else q :: handleSavePersona p ps.
Proof.
  unfold handleSavePersona. simpl.
  destruct (String.eqb (Persona.id q) (Persona.id p)); [reflexivity|].
  destruct (findIndex _ ps) as [i|]; simpl; reflexivity.
Qed.

(** X16 ([handleSavePersona]): saving a persona is an insert-or-update by
    id: afterwards the id of the persona finds the saved persona, every
    other id finds what it found before, and the list has grown by one
    exactly when the id was not in it. *)
Theorem save_persona_upserts p ps :
  findPersona (Persona.id p) (handleSavePersona p ps) = Some p
  /\ (forall id, id <> Persona.id p ->
        findPersona id (handleSavePersona p ps) = findPersona id ps)
  /\ List.length (handleSavePersona p ps)
     = match findPersona (Persona.id p) ps with
       | Some _ => List.length ps
       | None => S (List.length ps)
       end.
Proof.
  unfold findPersona. induction ps as [|q ps [IH1 [IH2 IH3]]].
  - unfold handleSavePersona. simpl. rewrite String.eqb_refl.
    repeat split. intros id Hid.
    destruct (String.eqb_spec (Persona.id p) id); [congruence|reflexivity].
  - rewrite handleSavePersona_cons. simpl.
    destruct (String.eqb_spec (Persona.id q) (Persona.id p)) as [E|E]; simpl.
    + rewrite String.eqb_refl. repeat split. intros id Hid.
      destruct (String.eqb_spec (Persona.id p) id); [congruence|].
      destruct (String.eqb_spec (Persona.id q) id); [congruence|reflexivity].
    + destruct (String.eqb_spec (Persona.id q) (Persona.id p)); [contradiction|].
      split; [exact IH1|]. split.
      * intros id Hid. destruct (String.eqb (Persona.id q) id); [reflexivity|auto].
      * rewrite IH3. destruct (find _ ps); reflexivity.
Qed.

(** X17 ([handleDeletePersona]): once the deletion is confirmed, the id
    finds no persona any more and every other id finds what it found
    before; when it is not confirmed the list is unchanged. *)
Theorem delete_persona_removes id ps :
  findPersona id (handleDeletePersona true id ps) = None
  /\ (forall id', id' <> id ->
        findPersona id' (handleDeletePersona true id ps) = findPersona id' ps)
  /\ handleDeletePersona false id ps = ps.
Proof.
  unfold findPersona, handleDeletePersona. split; [|split; [|reflexivity]].
  - induction ps as [|q ps IH]; simpl; [reflexivity|].
    destruct (String.eqb (Persona.id q) id) eqn:E; simpl; [exact IH|].
    rewrite E. exact IH.
  - intros id' Hid. induction ps as [|q ps IH]; simpl; [reflexivity|].
    destruct (String.eqb_spec (Persona.id q) id) as [E|E]; simpl.
    + destruct (String.eqb_spec (Persona.id q) id'); [congruence|exact IH].
    + destruct (String.eqb (Persona.id q) id'); [reflexivity|exact IH].
Qed.

Lemma handleSavePersona_Forall (P : Persona.t -> Prop) p ps :
  P p -> Forall P ps -> Forall P (handleSavePersona p ps).
Proof.
  intros Hp. induction 1 as [|q ps Hq H IH].
  - unfold handleSavePersona. simpl. constructor; [exact Hp|constructor].
  - rewrite handleSavePersona_cons.
    destruct (String.eqb (Persona.id q) (Persona.id p)); constructor; assumption.
Qed.

Lemma handleSavePersona_ids p ps :
  map Persona.id (handleSavePersona p ps) = map Persona.id ps
  \/ (~ In (Persona.id p) (map Persona.id ps)
      /\ map Persona.id (handleSavePersona p ps) = map Persona.id ps ++ [Persona.id p]).
Proof.
  induction ps as [|q ps IH].
  - right. split; [intros []|reflexivity].
  - rewrite handleSavePersona_cons.
    destruct (String.eqb_spec (Persona.id q) (Persona.id p)) as [E|E].
    + left. simpl. rewrite E. reflexivity.
    + destruct IH as [IH|[Hn IH]].
      * left. simpl. rewrite IH. reflexivity.
      * right. split; [|simpl; rewrite IH; reflexivity].
        simpl. intros [H|H]; [exact (E H)|exact (Hn H)].
Qed.

Local Open Scope string_scope.
Local Open Scope nat_scope.

(** X21 ([PersonaForm.handleSubmit], [handleSavePersona],
    [handleDeletePersona], [DEFAULT_PERSONAS]): however personas are added,
    edited and deleted through the form, starting from the default
    personas, the ids of the list are pairwise distinct (also when a new
    persona gets an id that is already in use: it then replaces that
    persona), and every persona has a name and a role that are not
    blank. *)
Theorem form_personas_invariant ps :
  formPersonas ps ->
  NoDup (map Persona.id ps)
  /\ Forall (fun p => Js.trim (Persona.name p) <> EmptyString
                      /\ Js.trim (Persona.role p) <> EmptyString) ps.
Proof.
  induction 1 as [|e name role now ps H [IH1 IH2]|c id ps H [IH1 IH2]].
  - split.
    + vm_compute. repeat constructor; simpl; intuition discriminate.
    + repeat constructor; vm_compute; discriminate.
  - unfold submitPersona, Js.truthy.
    destruct (String.eqb_spec (Js.trim name) EmptyString) as [En|En]; simpl; [auto|].
    destruct (String.eqb_spec (Js.trim role) EmptyString) as [Er|Er]; simpl; [auto|].
    split.
    + match goal with |- context [handleSavePersona ?p ps] =>
        destruct (handleSavePersona_ids p ps) as [E|[Hn E]]; rewrite E end.
      * exact IH1.
      * apply NoDup_snoc; assumption.
    + apply handleSavePersona_Forall; [simpl; auto|exact IH2].
  - unfold handleDeletePersona. destruct c; [|auto]. split.
    + apply NoDup_map_filter. exact IH1.
    + apply Forall_forall. intros p Hp. apply filter_In in Hp as [Hp _].
      rewrite Forall_forall in IH2. auto.
Qed.

Lemma form_personas_invariant_witness :
  let ps := handleDeletePersona true "2"
              (submitPersona None "Eve" "Analyst" "3"
                 (submitPersona None "  " "Nobody" "5" DEFAULT_PERSONAS)) in
  NoDup (map Persona.id ps)
  /\ Forall (fun p => Js.trim (Persona.name p) <> EmptyString
                      /\ Js.trim (Persona.role p) <> EmptyString) ps.
Proof.
  intros ps. apply (form_personas_invariant ps).
  unfold ps. apply fp_delete, fp_submit, fp_submit, fp_default.
Defined.

(** ** The intervention form *)

(** X18 ([InterventionForm.handleSubmit], [handleSendMessage]): a submitted
    text is either accepted or changes nothing.  It is accepted exactly
    when a meeting runs, no call is awaited and the text is not blank; what
    is then shown in the transcript and kept for the next persona turn is
    the trimmed text, which is not empty. *)
Theorem submitted_text_is_trimmed raw s :
  let s' := submitIntervention raw s in
  (isMeetingRunning s = true /\ isWaitingForAI s = false
   /\ Js.trim raw <> EmptyString
   /\ slot s' = Some (Js.trim raw)
   /\ Js.trim (Js.trim raw) = Js.trim raw
   /\ Js.truthy (slot s') = true
   /\ chatHistory s' = (chatHistory s ++ [userMessageOf (Js.trim raw)])%list)
  \/ ((isMeetingRunning s = false \/ isWaitingForAI s = true
       \/ Js.trim raw = EmptyString)
      /\ s' = s).
Proof.
  unfold submitIntervention, handleSendMessage, slot. simpl.
  destruct (String.eqb_spec (Js.trim raw) EmptyString) as [E|E]; simpl.
  - right. auto.
  - destruct (isWaitingForAI s) eqn:Hw; simpl; [right; auto|].
    destruct (isMeetingRunning s) eqn:Hr; simpl; [|right; auto].
    left. repeat split; auto using trim_idempotent.
    destruct (String.eqb_spec (Js.trim raw) EmptyString); [contradiction|reflexivity].
Qed.

(** ** The key list during a meeting *)

Lemma restatused_refl ks : restatused ks ks.
Proof. induction ks; constructor; auto. Qed.

Lemma restatused_trans a b c : restatused a b -> restatused b c -> restatused a c.
Proof.
  intros H. revert c. induction H as [|x y a b [Hi [Hv Hs]] H IH]; intros c Hc.
  - inversion Hc. constructor.
  - inversion Hc as [|y' z b' c' [Hi' [Hv' Hs']] Hc']; subst. constructor.
    + split; [congruence|]. split; [congruence|].
      destruct Hs' as [Hs'|Hs']; [rewrite Hs'; exact Hs|tauto].
    + apply IH. exact Hc'.
Qed.

Lemma restatused_mark id st ks :
  st = rate_limited \/ st = active -> restatused ks (map (markStatus id st) ks).
Proof.
  intros Hst. induction ks as [|k ks IH]; simpl; constructor; [|exact IH].
  unfold markStatus. destruct (String.eqb (ApiKey.id k) id); simpl; auto.
Qed.

Lemma restatused_maps ks ks' :
  restatused ks ks' ->
  map ApiKey.id ks' = map ApiKey.id ks
  /\ map ApiKey.value ks' = map ApiKey.value ks
  /\ forall k', In k' ks' ->
       ApiKey.status k' <> rate_limited -> ApiKey.status k' <> active -> In k' ks.
Proof.
  induction 1 as [|k k' ks ks' [Hi [Hv Hs]] H [IH1 [IH2 IH3]]]; simpl.
  - repeat split. intros k' [].
  - rewrite Hi, Hv, IH1, IH2. repeat split. intros x [E|Hx] H1 H2.
    + subst x. left. destruct Hs as [Hs|[Hs|Hs]]; [|contradiction|contradiction].
      destruct k, k'; simpl in *; subst; reflexivity.
    + right. apply IH3; assumption.
Qed.

Lemma failed_frame x s s' : apiKeys x = apiKeys s -> failed x s' -> failed s s'.
Proof. unfold failed. intros E H. rewrite <- E. exact H. Qed.

Lemma catchBlock_keys cl e s :
  apiKeys (catchBlock cl e s) = apiKeys s
  \/ failed s (catchBlock cl e s).
Proof.
  unfold catchBlock, failed. destruct e as [msg| |msg fk]; simpl; auto.
  destruct (find _ _); simpl; auto. right. repeat split; eauto.
  apply restatused_mark. auto.
Qed.

Lemma settle_keys cl k o s :
  apiKeys (settle cl k o s) = apiKeys s \/ failed s (settle cl k o s).
Proof.
  unfold settle. destruct (fst o); simpl; auto.
  apply (catchBlock_keys cl e (setOrchestratorRef (Some (snd o)) s)).
Qed.

Lemma invoke_keys cl k call s :
  apiKeys (invoke cl k call s) = apiKeys s \/ failed s (invoke cl k call s).
Proof.
  unfold invoke. destruct (abortControllerRef s); [|apply catchBlock_keys].
  destruct (orchestratorRef s); auto.
  apply (settle_keys cl k _ (setCallLog (callLog s ++ [call]) s)).
Qed.

Lemma discuss_keys cl s :
  apiKeys (discuss cl s) = apiKeys s \/ failed s (discuss cl s).
Proof.
  unfold discuss.
  destruct (_ >=? Z.of_nat (List.length (agenda _)))%Z.
  { apply (invoke_keys cl _ _
             (setIsWaitingForAI true (appendMessages [completeNotice] s))). }
  match goal with
  | |- context [match ?a with Some _ => _ | None => catchBlock _ _ _ end] =>
      destruct a as [s1|] eqn:Ea
  end; [|apply catchBlock_keys].
  assert (Hs1 : apiKeys s1 = apiKeys s).
  { destruct (_ >? _)%Z in Ea.
    - destruct (Js.nth _ _) in Ea; inversion Ea; reflexivity.
    - inversion Ea; reflexivity. }
  destruct (Js.nth (c_personas cl) _) as [p|].
  - match goal with |- context [invoke ?c ?k ?call ?x] =>
      destruct (invoke_keys c k call x) as [H|H];
      [left; rewrite H; exact Hs1
      |right; apply (failed_frame x); [exact Hs1|exact H]] end.
  - match goal with |- context [catchBlock ?c ?e ?x] =>
      destruct (catchBlock_keys c e x) as [H|H];
      [left; rewrite H; exact Hs1
      |right; apply (failed_frame x); [exact Hs1|exact H]] end.
Qed.

Lemma step_keys e s :
  apiKeys (step e s) = apiKeys s
  \/ (exists id, e = CooldownFires id)
  \/ failed s (step e s).
Proof.
  destruct e as [| | |t| |r|id]; simpl.
  - left. unfold handleStartMeeting.
    destruct (isMeetingRunning s || _); [destruct (negb _)|]; reflexivity.
  - left. unfold handleStopMeeting. destruct (abortControllerRef s); reflexivity.
  - left. unfold handleResetMeeting, handleStopMeeting.
    destruct (abortControllerRef s); reflexivity.
  - left. unfold handleSendMessage. destruct (_ || _); reflexivity.
  - destruct (tickScheduled s); [|auto]. unfold runMeetingStep.
    destruct (orchestratorRef s); [|auto].
    destruct (negb (isMeetingRunning s)); [auto|].
    destruct (match abortControllerRef s with Some a => a | None => false end);
      [auto|].
    destruct (agenda (meetingStateRef s)).
    + destruct (invoke_keys (closureOf s) AfterAgenda
                  (GenerateAgenda (c_meetingTopic (closureOf s)))
                  (setIsWaitingForAI true s)) as [H|H];
        [left; exact H|right; right; exact H].
    + destruct (discuss_keys (closureOf s) s); auto.
  - unfold backendReply. destruct (suspended s) as [f|]; [|auto].
    destruct r as [txt|msg].
    + unfold resolved.
      destruct (continuation f); [|left; reflexivity|left; reflexivity].
      match goal with |- context [discuss ?c ?x] =>
        destruct (discuss_keys c x) as [H|H] end;
        [left; exact H|right; right; exact H].
    + destruct (orchestratorRef s); [|auto].
      match goal with |- context [settle ?c ?k ?o ?x] =>
        destruct (settle_keys c k o x) as [H|H] end;
        [left; exact H|right; right; exact H].
  - right. left. eauto.
Qed.

(** X19 ([runMeetingStep] and its [catch] block, the handlers of [App]):
    apart from the expiry of a cooldown, an event changes the key list only
    by ending the meeting with an error message, with no call left
    pending; while a meeting keeps running, no key is marked, whatever the
    backend answered. *)
Theorem statuses_change_only_when_meeting_fails e s :
  apiKeys (step e s) = apiKeys s
  \/ (exists id, e = CooldownFires id)
  \/ (isMeetingRunning (step e s) = false
      /\ suspended (step e s) = None
      /\ (exists msg, error (step e s) = Some msg)
      /\ restatused (apiKeys s) (apiKeys (step e s))).
Proof. exact (step_keys e s). Qed.

(** X20 ([runMeetingStep] and its [catch] block, cooldown callback, the
    handlers of [App]): a meeting never adds, removes, reorders or renames
    keys: over any sequence of events the ids and the values of the key
    list stay as they are, and a status only ever changes to 'rate-limited'
    or to 'active'; in particular no key is ever set to 'invalid'. *)
Theorem meeting_never_edits_key_list evs s :
  restatused (apiKeys s) (apiKeys (run evs s))
  /\ map ApiKey.id (apiKeys (run evs s)) = map ApiKey.id (apiKeys s)
  /\ map ApiKey.value (apiKeys (run evs s)) = map ApiKey.value (apiKeys s)
  /\ forall k, In k (apiKeys (run evs s)) -> ApiKey.status k = invalid ->
       In k (apiKeys s).
Proof.
  assert (H : restatused (apiKeys s) (apiKeys (run evs s))).
  { unfold run. revert s. induction evs as [|e evs IH]; intros s; simpl.
    - apply restatused_refl.
    - apply restatused_trans with (b := apiKeys (step e s)); [|apply IH].
      destruct (step_keys e s) as [H|[[id H]|H]].
      + rewrite H. apply restatused_refl.
      + subst e. simpl. unfold cooldownExpires.
        destruct (existsb _ _); simpl; [|apply restatused_refl].
        apply restatused_mark. auto.
      + apply H. }
  split; [exact H|]. destruct (restatused_maps _ _ H) as [H1 [H2 H3]].
  split; [exact H1|]. split; [exact H2|].
  intros k Hk Hs. apply H3; [exact Hk|congruence|congruence].
Qed.
